(** * swcgeom: geometric transforms and branch-tree reduction

    A shallow embedding of [swcgeom/transforms/geometry.py],
    [swcgeom/core/branch_tree.py] and the two datasets of
    [swcgeom/datasets/pytorch], and the properties of them.

    Numbers.  The node columns [x], [y], [z], [r] are numpy float arrays.
    They are modelled as exact rationals extended with the non-finite values
    a division by zero produces ([fnum]); rounding, overflow and signed zeros
    are not modelled there.  Where a property depends on rounding, the
    numbers of a transform are computed in IEEE 754 arithmetic ([Rounded]).
    The integer columns [id], [type], [pid] are [Z].

    Objects.  Trees are mutable Python objects: [x.copy()] allocates a new
    one and [y.ndata[k] = v] writes into it.  They live in a [store] indexed
    by locations, and the methods are computations in an error-state monad. *)

From Stdlib Require Import ZArith QArith Lia.
From stdpp Require Import base option list gmap strings.

Local Open Scope Z_scope.

(** ** Exceptions and the error monad *)

Inductive exn :=
  | ValueError   (* numpy: [.item()] on an array of size <> 1, [min] of an empty array, shape mismatch *)
  | KeyError     (* a dict lookup that misses *)
  | IndexError   (* a sequence index out of range *)
  | DanglingRef  (* a location that holds no object; no Python counterpart *)
  | StopIteration. (* an iterator that has no further item *)

Inductive result (A : Type) :=
  | Ok (a : A)
  | Raise (e : exn).
Arguments Ok {A} a.
Arguments Raise {A} e.

Definition rbind {A B} (r : result A) (k : A → result B) : result B :=
  match r with Ok a => k a | Raise e => Raise e end.

Definition of_option {A} (e : exn) (o : option A) : result A :=
  match o with Some a => Ok a | None => Raise e end.

Fixpoint rmapM {A B} (f : A → result B) (l : list A) : result (list B) :=
  match l with
  | [] => Ok []
  | a :: l' => rbind (f a) (λ b, rbind (rmapM f l') (λ bs, Ok (b :: bs)))
  end.

(** ** Floating-point values: rationals with infinities and NaN *)

(** The arithmetic on [fnum] is exact: no operation rounds or overflows.
    What it gives for the value of a sum or a product is the program's value
    up to rounding; the module [Rounded], further down, has the rounding. *)

Inductive fnum :=
  | Fin (q : Q)
  | Inf (neg : bool)
  | NaN.

Definition Qneg_b (q : Q) : bool := negb (Qle_bool 0 q).
Definition Qzero_b (q : Q) : bool := Qeq_bool q 0.

Definition fneg (a : fnum) : fnum :=
  match a with Fin q => Fin (- q)%Q | Inf s => Inf (negb s) | NaN => NaN end.

Definition fadd (a b : fnum) : fnum :=
  match a, b with
  | NaN, _ | _, NaN => NaN
  | Fin p, Fin q => Fin (p + q)%Q
  | Inf s, Fin _ | Fin _, Inf s => Inf s
  | Inf s, Inf t => if eqb s t then Inf s else NaN
  end.

Definition fsub (a b : fnum) : fnum := fadd a (fneg b).

Definition fmul (a b : fnum) : fnum :=
  match a, b with
  | NaN, _ | _, NaN => NaN
  | Fin p, Fin q => Fin (p * q)%Q
  | Inf s, Fin q | Fin q, Inf s => if Qzero_b q then NaN else Inf (xorb s (Qneg_b q))
  | Inf s, Inf t => Inf (xorb s t)
  end.

(** numpy's true division: [x / 0] is [±inf], [0 / 0] is [nan], and only a
    warning is issued. *)
Definition fdiv (a b : fnum) : fnum :=
  match a, b with
  | NaN, _ | _, NaN => NaN
  | Fin p, Fin q =>
      if Qzero_b q then (if Qzero_b p then NaN else Inf (Qneg_b p))
      else Fin (p / q)%Q
  | Fin _, Inf _ => Fin 0
  | Inf s, Fin q => Inf (xorb s (Qneg_b q))
  | Inf _, Inf _ => NaN
  end.

(** [a <= b] on non-NaN values. *)
Definition fle_b (a b : fnum) : bool :=
  match a, b with
  | Fin p, Fin q => Qle_bool p q
  | Inf true, _ | _, Inf false => true
  | _, _ => false
  end.

(** [np.minimum] / [np.maximum] of two values: NaN propagates. *)
Definition fmin2 (a b : fnum) : fnum :=
  match a, b with
  | NaN, _ | _, NaN => NaN
  | _, _ => if fle_b a b then a else b
  end.
Definition fmax2 (a b : fnum) : fnum :=
  match a, b with
  | NaN, _ | _, NaN => NaN
  | _, _ => if fle_b a b then b else a
  end.

(** [np.min(vs)] and [np.max(vs)]: [ValueError] on an empty array. *)
Definition np_min (vs : list fnum) : result fnum :=
  match vs with
  | [] => Raise ValueError
  | v :: vs' => Ok (foldl fmin2 v vs')
  end.
Definition np_max (vs : list fnum) : result fnum :=
  match vs with
  | [] => Raise ValueError
  | v :: vs' => Ok (foldl fmax2 v vs')
  end.

Definition is_finite (a : fnum) : Prop :=
  match a with Fin _ => True | _ => False end.

(** Equality of values: finite values are compared as rationals. *)
Definition feq (a b : fnum) : Prop :=
  match a, b with
  | Fin p, Fin q => (p == q)%Q
  | Inf s, Inf t => s = t
  | _, _ => False
  end.

Definition f0 : fnum := Fin 0.
Definition f1 : fnum := Fin 1.

(** ** Trees and the object store *)

(** [DictSWC]: the node table, one column per field.  [ndata] is a dict keyed
    by the column names of [SWCNames]; with the names fixed it is a record. *)
Record DictSWC := mkDictSWC {
  source : string;
  nid : list Z;
  ntype : list Z;
  nx : list fnum;
  ny : list fnum;
  nz : list fnum;
  nr : list fnum;
  npid : list Z
}.

(** The four float columns, as [Normalizer] enumerates them. *)
Inductive fkey := key_x | key_y | key_z | key_r.

Definition ndata_get (k : fkey) (t : DictSWC) : list fnum :=
  match k with key_x => nx t | key_y => ny t | key_z => nz t | key_r => nr t end.

Definition ndata_set (k : fkey) (v : list fnum) (t : DictSWC) : DictSWC :=
  match k with
  | key_x => mkDictSWC (source t) (nid t) (ntype t) v (ny t) (nz t) (nr t) (npid t)
  | key_y => mkDictSWC (source t) (nid t) (ntype t) (nx t) v (nz t) (nr t) (npid t)
  | key_z => mkDictSWC (source t) (nid t) (ntype t) (nx t) (ny t) v (nr t) (npid t)
  | key_r => mkDictSWC (source t) (nid t) (ntype t) (nx t) (ny t) (nz t) v (npid t)
  end.

(** All columns have one length: the number of nodes. *)
Definition wf_table (t : DictSWC) : Prop :=
  length (ntype t) = length (nid t) ∧ length (nx t) = length (nid t) ∧
  length (ny t) = length (nid t) ∧ length (nz t) = length (nid t) ∧
  length (nr t) = length (nid t) ∧ length (npid t) = length (nid t).

Definition loc := nat.
Abbreviation store := (gmap loc DictSWC).

(** Computations that read and write the store and may raise. *)
Definition M (A : Type) : Type := store → result (A * store).

Definition M_ret {A} (a : A) : M A := λ σ, Ok (a, σ).
Definition M_bind {A B} (k : A → M B) (m : M A) : M B :=
  λ σ, match m σ with Ok (a, σ') => k a σ' | Raise e => Raise e end.
Definition lift {A} (r : result A) : M A :=
  λ σ, match r with Ok a => Ok (a, σ) | Raise e => Raise e end.

#[global] Instance M_MRet : MRet M := @M_ret.
#[global] Instance M_MBind : MBind M := @M_bind.

(** [x.ndata[k]] *)
Definition read {A} (f : DictSWC → A) (x : loc) : M A :=
  λ σ, match σ !! x with Some t => Ok (f t, σ) | None => Raise DanglingRef end.

(** [x.ndata[k] = v] *)
Definition write (f : DictSWC → DictSWC) (x : loc) : M unit :=
  λ σ, match σ !! x with Some t => Ok (tt, <[x := f t]> σ) | None => Raise DanglingRef end.

(** Modelled from the spec: [DictSWC.copy] is not in the sources; the spec
    has every transform return "a new, independently owned output tree", so
    the copy is a new object with the same columns. *)
Definition copy (x : loc) : M loc :=
  λ σ, match σ !! x with
       | Some t => let y := fresh (dom σ) in Ok (y, <[y := t]> σ)
       | None => Raise DanglingRef
       end.

(** Unfolds the operations of [M]. *)
Ltac unfold_M :=
  unfold mbind, mret, M_MBind, M_MRet, M_bind, M_ret, read, write, lift, copy, id.

(** [for k in ks: body k] *)
Fixpoint for_ {A} (ks : list A) (body : A → M unit) : M unit :=
  match ks with
  | [] => mret tt
  | k :: ks' => body k ;; for_ ks' body
  end.

(** ** Homogeneous coordinates *)

Abbreviation vec3 := (fnum * fnum * fnum)%type.
Abbreviation vec4 := (fnum * fnum * fnum * fnum)%type.
(** A 4x4 array, by rows. *)
Abbreviation mat4 := (vec4 * vec4 * vec4 * vec4)%type.

Definition vdot (v w : vec4) : fnum :=
  let '(v0, v1, v2, v3) := v in
  let '(w0, w1, w2, w3) := w in
  fadd (fadd (fadd (fmul v0 w0) (fmul v1 w1)) (fmul v2 w2)) (fmul v3 w3).

Definition col (j : nat) (m : mat4) : vec4 :=
  let '(r0, r1, r2, r3) := m in
  let pick (r : vec4) := let '(a, b, c, d) := r in
    match j with O => a | 1%nat => b | 2%nat => c | _ => d end in
  (pick r0, pick r1, pick r2, pick r3).

(** [v.dot(m)]: a row vector times a matrix. *)
Definition vec_dot (v : vec4) (m : mat4) : vec4 :=
  (vdot v (col 0 m), vdot v (col 1 m), vdot v (col 2 m), vdot v (col 3 m)).

(** [a.dot(b)] on 4x4 arrays. *)
Definition mat_dot (a b : mat4) : mat4 :=
  let '(a0, a1, a2, a3) := a in
  (vec_dot a0 b, vec_dot a1 b, vec_dot a2 b, vec_dot a3 b).

(** Modelled from the spec: [np.stack] of three columns, as [DictSWC.xyz]
    (not in the sources) does; columns of different lengths are a shape
    error. *)
Fixpoint stack3 (xs ys zs : list fnum) : result (list vec3) :=
  match xs, ys, zs with
  | [], [], [] => Ok []
  | a :: xs', b :: ys', c :: zs' =>
      rbind (stack3 xs' ys' zs') (λ l, Ok ((a, b, c) :: l))
  | _, _, _ => Raise ValueError
  end.

(** Modelled from the spec: [DictSWC.xyz], the N x 3 array of positions. *)
Definition xyz (t : DictSWC) : result (list vec3) := stack3 (nx t) (ny t) (nz t).

(** A position with the homogeneous coordinate 1. *)
Definition homogeneous (p : vec3) : vec4 := let '(a, b, c) := p in (a, b, c, f1).

(** Modelled from the spec: [DictSWC.xyzw], the N x 4 array of homogeneous
    positions; "the 4th (homogeneous) coordinate is fixed at 1 for all
    nodes". *)
Definition xyzw (t : DictSWC) : result (list vec4) :=
  rbind (xyz t) (λ l, Ok (map homogeneous l)).

(** Row [i] of the transposed N x 4 array. *)
Definition row_T (i : nat) (l : list vec4) : list fnum :=
  map (λ p : vec4, let '(a, b, c, d) := p in
         match i with O => a | 1%nat => b | 2%nat => c | _ => d end) l.

(** Modelled from the spec: the matrix builders of [swcgeom.utils] are not in
    the sources.  The spec fixes the row-vector convention, "a point is
    transformed as p' = [x,y,z,1] . M", so a pure translation carries its
    offsets in the last row. *)
Definition translate3d (tx ty tz : fnum) : mat4 :=
  ((f1, f0, f0, f0),
   (f0, f1, f0, f0),
   (f0, f0, f1, f0),
   (tx, ty, tz, f1)).

(** Modelled from the spec: "pure diagonal scale". *)
Definition scale3d (sx sy sz : fnum) : mat4 :=
  ((sx, f0, f0, f0),
   (f0, sy, f0, f0),
   (f0, f0, sz, f0),
   (f0, f0, f0, f1)).

(** A linear map of space as a homogeneous matrix. *)
Definition linear3d (a b c d e f g h i : fnum) : mat4 :=
  ((a, b, c, f0),
   (d, e, f, f0),
   (g, h, i, f0),
   (f0, f0, f0, f1)).

(** [np.nonzero(bs)[0]]: the indices of the true entries. *)
Fixpoint nonzero_from (i : nat) (bs : list bool) : list nat :=
  match bs with
  | [] => []
  | b :: bs' => (if b then [i] else []) ++ nonzero_from (S i) bs'
  end.
Definition np_nonzero (bs : list bool) : list nat := nonzero_from 0 bs.

(** [a.item()]: the only element of an array of size one. *)
Definition item {A} (a : list A) : result A :=
  match a with
  | [v] => Ok v
  | _ => Raise ValueError
  end.

(** ** geometry.py: the transforms *)

(** [Center = Literal["root", "soma", "origin"]] *)
Inductive Center := root | soma | origin.

#[global] Instance Center_eq_dec : EqDecision Center.
Proof. solve_decision. Defined.

Record _Transform := mk_Transform {
  tm : mat4;
  center : Center;
  fmt : string
}.

(** [_Transform.__init__(tm, center="origin", fmt="")] *)
Definition _Transform_init (tm : mat4) (center : option Center)
    (fmt : option string) : _Transform :=
  mk_Transform tm (default origin center) (default ""%string fmt).

(** [_Transform.__call__], first half: the [match] on [self.center] that
    chooses the matrix to apply. *)
Definition effective_matrix (self : _Transform) (x : loc) : M mat4 :=
  match center self with
  | root | soma =>
      pid ← read npid x;
      idx ← lift (item (np_nonzero (map (λ p, p =? -1) pid)));
      pts ← (t ← read id x; lift (xyz t));
      '(c0, c1, c2) ← lift (of_option IndexError (pts !! idx));
      mret (mat_dot
              (mat_dot (translate3d (fneg c0) (fneg c1) (fneg c2)) (tm self))
              (translate3d c0 c1 c2))
  | origin => mret (tm self)
  end.

(** [_Transform.__call__], second half: multiply, copy, overwrite the
    position columns of the copy. *)
Definition apply_matrix (m : mat4) (x : loc) : M loc :=
  pts4 ← (t ← read id x; lift (xyzw t));
  let xyzw' := map (λ p, vec_dot p m) pts4 in
  y ← copy x;
  write (ndata_set key_x (row_T 0 xyzw')) y;;
  write (ndata_set key_y (row_T 1 xyzw')) y;;
  write (ndata_set key_z (row_T 2 xyzw')) y;;
  mret y.

(** [_Transform.__call__] *)
Definition _Transform_call (self : _Transform) (x : loc) : M loc :=
  m ← effective_matrix self x;
  apply_matrix m x.

(** [_Transform.__repr__] *)
Definition _Transform_repr (self : _Transform) : string := fmt self.

(** [Normalizer.__call__] *)
Definition Normalizer_call (x : loc) : M loc :=
  new_tree ← copy x;
  for_ [key_x; key_y; key_z; key_r] (λ key,
    vs ← read (ndata_get key) new_tree;
    lo ← lift (np_min vs);
    hi ← lift (np_max vs);
    write (ndata_set key (map (λ v, fdiv (fsub v lo) hi) vs)) new_tree);;
  mret new_tree.

Section Variants.

(** numpy's trigonometry and Python's float formatting are library
    internals; the constructors are stated for any such functions. *)
Variables np_cos np_sin : fnum → fnum.
(** [f"{v}"] and [f"{v:.4f}"] *)
Variables str_float format_4f : fnum → string.

(** Modelled from the spec: [rotate3d] of [swcgeom.utils] is not in the
    sources: "Rodrigues rotation about n by θ", for row vectors. *)
Definition rotate3d (n : vec3) (theta : fnum) : mat4 :=
  let '(a, b, d) := n in
  let c := np_cos theta in
  let s := np_sin theta in
  let k := fsub f1 c in
  linear3d
    (fadd c (fmul (fmul a a) k))
    (fadd (fmul (fmul a b) k) (fmul d s))
    (fsub (fmul (fmul a d) k) (fmul b s))
    (fsub (fmul (fmul a b) k) (fmul d s))
    (fadd c (fmul (fmul b b) k))
    (fadd (fmul (fmul b d) k) (fmul a s))
    (fadd (fmul (fmul a d) k) (fmul b s))
    (fsub (fmul (fmul b d) k) (fmul a s))
    (fadd c (fmul (fmul d d) k)).

(** Modelled from the spec: "axis-aligned rotation shorthand for Rotate". *)
Definition rotate3d_x (theta : fnum) : mat4 := rotate3d (f1, f0, f0) theta.
Definition rotate3d_y (theta : fnum) : mat4 := rotate3d (f0, f1, f0) theta.
Definition rotate3d_z (theta : fnum) : mat4 := rotate3d (f0, f0, f1) theta.

(** Two pieces of an f-string with a dash between them. *)
Definition dash (s : string) (v : string) : string := (s ++ "-" ++ v)%string.

(** [Translate.__init__(tx, ty, tz)] *)
Definition Translate (tx ty tz : fnum) : _Transform :=
  let fmt := dash (dash (dash "Translate" (str_float tx)) (str_float ty)) (str_float tz) in
  _Transform_init (translate3d tx ty tz) None (Some fmt).

(** [Scale.__init__(sx, sy, sz, center="root")] *)
Definition Scale (sx sy sz : fnum) (center : option Center) : _Transform :=
  let center := default root center in
  let fmt := dash (dash (dash "Scale" (str_float sx)) (str_float sy)) (str_float sz) in
  _Transform_init (scale3d sx sy sz) (Some center) (Some fmt).

(** [Rotate.__init__(n, theta, center="root")] *)
Definition Rotate (n : vec3) (theta : fnum) (center : option Center) : _Transform :=
  let center := default root center in
  let '(n0, n1, n2) := n in
  let fmt := dash (dash (dash (dash "Rotate" (str_float n0)) (str_float n1))
                     (str_float n2)) (format_4f theta) in
  _Transform_init (rotate3d n theta) (Some center) (Some fmt).

(** [RotateX.__init__(theta, center="root")] *)
Definition RotateX (theta : fnum) (center : option Center) : _Transform :=
  let center := default root center in
  _Transform_init (rotate3d_x theta) (Some center)
    (Some (dash "RotateX" (str_float theta))).

(** [RotateY.__init__(theta, center="root")] *)
Definition RotateY (theta : fnum) (center : option Center) : _Transform :=
  let center := default root center in
  _Transform_init (rotate3d_y theta) (Some center)
    (Some (dash "RotateX" (str_float theta))).

(** [RotateZ.__init__(theta, center="root")] *)
Definition RotateZ (theta : fnum) (center : option Center) : _Transform :=
  let center := default root center in
  _Transform_init (rotate3d_z theta) (Some center)
    (Some (dash "RotateX" (str_float theta))).

(** The [transform] class methods: [cls(...)(x)]. *)
Definition Translate_transform (x : loc) (tx ty tz : fnum) : M loc :=
  _Transform_call (Translate tx ty tz) x.
Definition Scale_transform (x : loc) (sx sy sz : fnum) (center : option Center) : M loc :=
  _Transform_call (Scale sx sy sz (Some (default root center))) x.
Definition Rotate_transform (x : loc) (n : vec3) (theta : fnum) (center : option Center) : M loc :=
  _Transform_call (Rotate n theta (Some (default root center))) x.
Definition RotateX_transform (x : loc) (theta : fnum) (center : option Center) : M loc :=
  _Transform_call (RotateX theta (Some (default root center))) x.
Definition RotateY_transform (x : loc) (theta : fnum) (center : option Center) : M loc :=
  _Transform_call (RotateY theta (Some (default root center))) x.
Definition RotateZ_transform (x : loc) (theta : fnum) (center : option Center) : M loc :=
  _Transform_call (RotateZ theta (Some (default root center))) x.

End Variants.

(** ** The numbers of [_Transform.__call__] in IEEE 754 arithmetic *)

From Stdlib Require SpecFloat.

(** The positions and the matrices of the program are numpy arrays of
    [float32] or [float64]: every product and every sum is rounded to the
    nearest value of the format, ties to even.  [Rounded] is the numeric
    part of [_Transform.__call__] in that arithmetic, for the format with
    [prec] bits of mantissa and the exponent bound [emax] (24 and 128 for
    [float32], 53 and 1024 for [float64]).  The tree is given by its parent
    column and its three position columns; a dot product adds its four
    products from left to right. *)
Module Rounded.

Abbreviation num := SpecFloat.spec_float.
Abbreviation vec3 := (num * num * num)%type.
Abbreviation vec4 := (num * num * num * num)%type.
Abbreviation mat4 := (vec4 * vec4 * vec4 * vec4)%type.

Definition neg (a : num) : num := SpecFloat.SFopp a.

Definition col (j : nat) (m : mat4) : vec4 :=
  let '(r0, r1, r2, r3) := m in
  let pick (r : vec4) := let '(a, b, c, d) := r in
    match j with O => a | 1%nat => b | 2%nat => c | _ => d end in
  (pick r0, pick r1, pick r2, pick r3).

Fixpoint stack3 (xs ys zs : list num) : result (list vec3) :=
  match xs, ys, zs with
  | [], [], [] => Ok []
  | a :: xs', b :: ys', c :: zs' =>
      rbind (stack3 xs' ys' zs') (λ l, Ok ((a, b, c) :: l))
  | _, _, _ => Raise ValueError
  end.

Definition row_T (i : nat) (l : list vec4) : list num :=
  map (λ p : vec4, let '(a, b, c, d) := p in
         match i with O => a | 1%nat => b | 2%nat => c | _ => d end) l.

Section Format.

Variables prec emax : Z.

(** The integer [n] in the format, rounded if it has too many digits. *)
Definition of_Z (n : Z) : num := SpecFloat.binary_normalize prec emax n 0 false.
Definition add (a b : num) : num := SpecFloat.SFadd prec emax a b.
Definition mul (a b : num) : num := SpecFloat.SFmul prec emax a b.

Definition vdot (v w : vec4) : num :=
  let '(v0, v1, v2, v3) := v in
  let '(w0, w1, w2, w3) := w in
  add (add (add (mul v0 w0) (mul v1 w1)) (mul v2 w2)) (mul v3 w3).

(** [v.dot(m)] *)
Definition vec_dot (v : vec4) (m : mat4) : vec4 :=
  (vdot v (col 0 m), vdot v (col 1 m), vdot v (col 2 m), vdot v (col 3 m)).

(** [a.dot(b)] on 4x4 arrays. *)
Definition mat_dot (a b : mat4) : mat4 :=
  let '(a0, a1, a2, a3) := a in
  (vec_dot a0 b, vec_dot a1 b, vec_dot a2 b, vec_dot a3 b).

Definition homogeneous (p : vec3) : vec4 := let '(a, b, c) := p in (a, b, c, of_Z 1).

(** Modelled from the spec: [translate3d] and [scale3d], as above. *)
Definition translate3d (tx ty tz : num) : mat4 :=
  ((of_Z 1, of_Z 0, of_Z 0, of_Z 0),
   (of_Z 0, of_Z 1, of_Z 0, of_Z 0),
   (of_Z 0, of_Z 0, of_Z 1, of_Z 0),
   (tx, ty, tz, of_Z 1)).

Definition scale3d (sx sy sz : num) : mat4 :=
  ((sx, of_Z 0, of_Z 0, of_Z 0),
   (of_Z 0, sy, of_Z 0, of_Z 0),
   (of_Z 0, of_Z 0, sz, of_Z 0),
   (of_Z 0, of_Z 0, of_Z 0, of_Z 1)).

(** [_Transform.__call__], first half: the matrix to apply. *)
Definition effective_matrix (tm : mat4) (pivot : Center) (pid : list Z)
    (xs ys zs : list num) : result mat4 :=
  match pivot with
  | root | soma =>
      rbind (item (np_nonzero (map (λ p, p =? -1) pid))) (λ idx,
      rbind (stack3 xs ys zs) (λ pts,
      rbind (of_option IndexError (pts !! idx)) (λ c,
      let '(c0, c1, c2) := c in
      Ok (mat_dot
            (mat_dot (translate3d (neg c0) (neg c1) (neg c2)) tm)
            (translate3d c0 c1 c2)))))
  | origin => Ok tm
  end.

(** [_Transform.__call__]: the new position columns. *)
Definition call (tm : mat4) (pivot : Center) (pid : list Z)
    (xs ys zs : list num) : result (list num * list num * list num) :=
  rbind (effective_matrix tm pivot pid xs ys zs) (λ m,
  rbind (stack3 xs ys zs) (λ pts,
  let xyzw' := map (λ p, vec_dot (homogeneous p) m) pts in
  Ok (row_T 0 xyzw', row_T 1 xyzw', row_T 2 xyzw'))).


End Format.

End Rounded.

(** ** branch_tree.py: the branch tree *)

#[global] Instance result_MRet : MRet result := @Ok.
#[global] Instance result_MBind : MBind result := λ A B k r, rbind r k.

Module Node.
(** [Tree.Node]: one row of the node table. *)
Record t := mk {
  id : Z;
  type : Z;
  x : fnum;
  y : fnum;
  z : fnum;
  r : fnum;
  pid : Z
}.
End Node.

(** Modelled from the spec: the [Branch] class is not in the sources.  A
    branch is "an ordered, non-empty sequence of Nodes"; as the extractor
    returns it, it is a view of the tree it was cut from ([attach]), and
    [detach] makes it an independent copy of the same nodes. *)
Record Branch := mkBranch {
  attach : option DictSWC;
  nodes : list Node.t
}.

(** Modelled from the spec: [Branch.detach], "a detached copy of the full
    node sequence". *)
Definition detach (br : Branch) : Branch := mkBranch None (nodes br).

(** [br[0]] and [br[-1]] *)
Definition Branch_first (br : Branch) : result Node.t :=
  of_option IndexError (head (nodes br)).
Definition Branch_last (br : Branch) : result Node.t :=
  of_option IndexError (last (nodes br)).

Definition branch_ids (br : Branch) : list Z := map Node.id (nodes br).

(** A Python dict: keys in insertion order, no key twice. *)
Definition dict (V : Type) : Type := list (Z * V).

Fixpoint dict_get {V} (k : Z) (d : dict V) : option V :=
  match d with
  | [] => None
  | (k', v) :: d' => if decide (k' = k) then Some v else dict_get k d'
  end.

(** [d.setdefault(k, v)] *)
Definition dict_setdefault {V} (k : Z) (v : V) (d : dict V) : dict V :=
  match dict_get k d with
  | Some _ => d
  | None => d ++ [(k, v)]
  end.

(** The value under [k] replaced by [f] of it. *)
Fixpoint dict_alter {V} (f : V → V) (k : Z) (d : dict V) : dict V :=
  match d with
  | [] => []
  | (k', v) :: d' =>
      if decide (k' = k) then (k', f v) :: d' else (k', v) :: dict_alter f k d'
  end.

(** [d[k].append(b)] *)
Definition dict_append {V} (k : Z) (b : V) (d : dict (list V)) : result (dict (list V)) :=
  match dict_get k d with
  | Some _ => Ok (dict_alter (λ l, l ++ [b]) k d)
  | None => Raise KeyError
  end.

(** One turn of the loop of [from_tree]: [setdefault] then [append]. *)
Definition dict_file {V} (k : Z) (b : V) (d : dict (list V)) : dict (list V) :=
  dict_alter (λ l, l ++ [b]) k (dict_setdefault k [] d).

Definition dict_values {V} (d : dict V) : list V := map snd d.
Definition dict_keys {V} (d : dict V) : list Z := map fst d.

Record BranchTree := mkBranchTree {
  tree_of : DictSWC;
  branches : dict (list Branch)
}.

(** [len(tree)]: the number of nodes. *)
Definition number_of_nodes (t : DictSWC) : nat := length (nid t).

(** [BranchTree.get_branches] *)
Definition get_branches (self : BranchTree) : list Branch :=
  concat (dict_values (branches self)).

(** [BranchTree.get_node_branches] *)
Definition get_node_branches (self : BranchTree) (idx : Z) : result (list Branch) :=
  of_option KeyError (dict_get idx (branches self)).

(** The row of the node with id [i]. *)
Definition node_at (t : DictSWC) (k : nat) : option Node.t :=
  i ← nid t !! k; ty ← ntype t !! k;
  a ← nx t !! k; b ← ny t !! k; c ← nz t !! k; d ← nr t !! k;
  p ← npid t !! k;
  Some (Node.mk i ty a b c d p).

Definition index_of (i : Z) (l : list Z) : option nat := fst <$> list_find (λ j, j = i) l.

Definition node_of (t : DictSWC) (i : Z) : option Node.t :=
  k ← index_of i (nid t); node_at t k.

Definition table_of (src : string) (rows : list Node.t) : DictSWC :=
  mkDictSWC src (map Node.id rows) (map Node.type rows)
    (map Node.x rows) (map Node.y rows) (map Node.z rows) (map Node.r rows)
    (map Node.pid rows).

(** Modelled from the spec: the id-remapping table of [to_sub_tree], "a
    table mapping every original retained id to its new id in the reduced
    tree's numbering (ids are re-densified to a compact contiguous range
    starting at the conventional root id)": the k-th retained id becomes k. *)
Definition remap (sub_id : list Z) : gmap Z Z :=
  list_to_map (zip sub_id (map Z.of_nat (seq 0 (length sub_id)))).

(** Modelled from the spec: [to_sub_tree] of [swcgeom.core.tree_utils] is not
    in the sources.  Its contract: "build(tree, retained_ids,
    retained_parent_ids) -> (reduced_tree, id_remap: original_id -> new_id),
    guaranteeing the reduced tree's topology matches the supplied parent
    relation and that id_remap is total over retained_ids"; "ids are
    re-densified to a compact contiguous range starting at the conventional
    root id"; "the reduced tree's node count equals |retained id set|".
    The retained ids are given without repetition; the k-th of them becomes
    node k. *)
Definition to_sub_tree (tree : DictSWC) (sub_id sub_pid : list Z)
    : result (DictSWC * gmap Z Z) :=
  let id_map : gmap Z Z := remap sub_id in
  new_pid ← rmapM (λ p, if p =? -1 then Ok (-1)
                         else of_option KeyError (id_map !! p)) sub_pid;
  rows ← rmapM (λ i, of_option KeyError (node_of tree i)) sub_id;
  let rows' := zip_with (λ (n : Node.t) (ip : Z * Z),
                 Node.mk ip.1 (Node.type n) (Node.x n) (Node.y n) (Node.z n)
                         (Node.r n) ip.2)
                 rows (zip (map Z.of_nat (seq 0 (length sub_id))) new_pid) in
  Ok (table_of (source tree) rows', id_map).

Section FromTree.

(** [Tree.get_branches], the Branch Extractor, is not in the sources: the
    reducer is stated for any extractor. *)
Variable Tree_get_branches : DictSWC → list Branch.

(** The two lists [from_tree] builds for [to_sub_tree]. *)
Definition retained (brs : list Branch) : result (list Z * list Z) :=
  sub_id ← rmapM (λ br, n ← Branch_last br; Ok (Node.id n)) brs;
  sub_pid ← rmapM (λ br, n ← Branch_first br; Ok (Node.id n)) brs;
  (* insert root *)
  Ok (0 :: sub_id, -1 :: sub_pid).

(** The new id of the first node of a branch. *)
Definition new_id_of_first (id_map : gmap Z Z) (br : Branch) : option Z :=
  n ← head (nodes br); id_map !! Node.id n.

(** The branches whose first node has the new id [k], in their order. *)
Definition filed_under (id_map : gmap Z Z) (k : Z) (brs : list Branch) : list Branch :=
  filter (λ br, new_id_of_first id_map br = Some k) brs.

(** The loop that files every branch under the new id of its first node. *)
Fixpoint file_branches (id_map : gmap Z Z) (brs : list Branch)
    (d : dict (list Branch)) : result (dict (list Branch)) :=
  match brs with
  | [] => Ok d
  | branch_raw :: brs' =>
      n ← Branch_first branch_raw;
      idx ← of_option KeyError (id_map !! Node.id n);
      let d1 := dict_setdefault idx [] d in
      d2 ← dict_append idx (detach branch_raw) d1;
      file_branches id_map brs' d2
  end.

(** [BranchTree.from_tree] *)
Definition from_tree (tree : DictSWC) : result BranchTree :=
  let brs := Tree_get_branches tree in
  '(sub_id, sub_pid) ← retained brs;
  '(sub_tree, id_map) ← to_sub_tree tree sub_id sub_pid;
  (* BranchTree(len(sub_tree), **sub_tree.ndata); branch_tree.source = tree.source *)
  let branch_tree :=
    mkDictSWC (source tree) (nid sub_tree) (ntype sub_tree) (nx sub_tree)
      (ny sub_tree) (nz sub_tree) (nr sub_tree) (npid sub_tree) in
  d ← file_branches id_map brs [];
  Ok (mkBranchTree branch_tree d).

End FromTree.

(** ** The node-tree invariant and the extractor contract *)

(** The rows of the table as (parent id, id). *)
Definition rows (t : DictSWC) : list (Z * Z) := zip (npid t) (nid t).

(** The parent-child edges. *)
Definition edges (t : DictSWC) : list (Z * Z) := filter (λ e, e.1 ≠ -1) (rows t).

(** The ids of the nodes whose parent is the sentinel. *)
Definition root_ids (t : DictSWC) : list Z := (filter (λ e, e.1 = -1) (rows t)).*2.

(** How many rows carry the sentinel. *)
Definition n_roots (t : DictSWC) : nat := length (filter (λ p, p = -1) (npid t)).

Definition n_children (t : DictSWC) (v : Z) : nat :=
  length (filter (λ p, p = v) (npid t)).

(** "Branching node: a node with two or more children." *)
Definition branching_nodes (t : DictSWC) : list Z :=
  filter (λ v, (2 ≤ n_children t v)%nat) (nid t).

(** "Tip node: a node with no children (leaf)." *)
Definition tip_nodes (t : DictSWC) : list Z :=
  filter (λ v, n_children t v = 0%nat) (nid t).

Definition parent_of (t : DictSWC) (v : Z) : option Z :=
  e ← list_find (λ e : Z * Z, e.2 = v) (rows t); Some (e.2.1).

(** Following parents from [v] reaches the sentinel within [fuel] steps. *)
Fixpoint reaches_root (fuel : nat) (t : DictSWC) (v : Z) : bool :=
  match fuel with
  | O => false
  | S fuel' =>
      match parent_of t v with
      | Some p => if p =? -1 then true else reaches_root fuel' t p
      | None => false
      end
  end.

(** The Node invariant: unique non-negative ids, exactly one root, every
    other parent id names a node, and the parent graph is acyclic and
    connected. *)
Definition valid_tree (t : DictSWC) : Prop :=
  wf_table t ∧ NoDup (nid t) ∧ Forall (λ i, 0 ≤ i) (nid t) ∧
  length (root_ids t) = 1%nat ∧
  Forall (λ e : Z * Z, e.1 = -1 ∨ e.1 ∈ nid t) (rows t) ∧
  Forall (λ v, reaches_root (length (nid t)) t v = true) (nid t).

(** The consecutive (parent, child) pairs of a path, and its interior. *)
Definition pairs (l : list Z) : list (Z * Z) := zip l (tail l).
Definition interior (l : list Z) : list Z := removelast (tail l).

(** An endpoint is the root, a branching node or a tip. *)
Definition endpoint (t : DictSWC) (v : Z) : Prop :=
  v ∈ root_ids t ∨ n_children t v ≠ 1%nat.

(** The Branch invariant: at least one edge, interior nodes with exactly one
    child, endpoints at the root, a branching node or a tip. *)
Definition branch_ok (t : DictSWC) (br : Branch) : Prop :=
  let l := branch_ids br in
  (2 ≤ length l)%nat ∧
  Forall (λ v, n_children t v = 1%nat) (interior l) ∧
  from_option (endpoint t) True (head l) ∧
  from_option (endpoint t) True (last l).

(** The Branch Extractor contract: every branch is a Branch, and the
    branches cover every parent-child edge exactly once. *)
Definition extractor_contract (t : DictSWC) (brs : list Branch) : Prop :=
  Forall (branch_ok t) brs ∧
  concat (map (λ br, pairs (branch_ids br)) brs) ≡ₚ edges t.

#[global] Instance branch_ok_dec t br : Decision (branch_ok t br).
Proof.
  unfold branch_ok, endpoint.
  destruct (head (branch_ids br)), (last (branch_ids br)); simpl; apply _.
Defined.

(** Modelled from the spec: an executable Branch Extractor, used for the
    concrete trees below.  From every non-root branching node or tip it
    climbs to the nearest endpoint above. *)
Fixpoint climb (fuel : nat) (t : DictSWC) (v : Z) (acc : list Z) : list Z :=
  match fuel with
  | O => acc
  | S fuel' =>
      match parent_of t v with
      | Some p =>
          if p =? -1 then acc
          else if bool_decide (endpoint t p) then p :: acc
          else climb fuel' t p (p :: acc)
      | None => acc
      end
  end.

Definition extract_branches (t : DictSWC) : list Branch :=
  let ends := filter (λ v, (v ∉ root_ids t) ∧ (n_children t v ≠ 1%nat)) (nid t) in
  map (λ v, mkBranch (Some t)
              (omap (node_of t) (climb (length (nid t)) t v [v]))) ends.

(** ** Concrete trees *)

Definition Fz (n : Z) : fnum := Fin (inject_Z n).

(** A chain 0 -> 1 -> 2. *)
Definition chain3 : DictSWC :=
  mkDictSWC "chain3" [0; 1; 2] [1; 3; 3]
    [Fz 0; Fz 1; Fz 2] [Fz 0; Fz 0; Fz 0] [Fz 0; Fz 0; Fz 0]
    [Fz 1; Fz 1; Fz 1] [-1; 0; 1].

(** A root with two tips. *)
Definition fork3 : DictSWC :=
  mkDictSWC "fork3" [0; 1; 2] [1; 3; 3]
    [Fz 0; Fz 1; Fz 1] [Fz 0; Fz 1; Fz (-1)] [Fz 0; Fz 0; Fz 0]
    [Fz 1; Fz 1; Fz 1] [-1; 0; 0].

(** The tree of the spec's scenario: 0 -> 1 -> 2, and 2 forks to 3 and 4. *)
Definition fork5 : DictSWC :=
  mkDictSWC "fork5" [0; 1; 2; 3; 4] [1; 3; 3; 3; 3]
    [Fz 0; Fz 1; Fz 2; Fz 3; Fz 3] [Fz 0; Fz 0; Fz 0; Fz 1; Fz (-1)]
    [Fz 0; Fz 0; Fz 0; Fz 0; Fz 0]
    [Fz 1; Fz 1; Fz 1; Fz 1; Fz 1] [-1; 0; 1; 2; 2].

(** A tree whose root carries the id 5. *)
Definition root5 : DictSWC :=
  mkDictSWC "root5" [5; 6] [1; 3]
    [Fz 0; Fz 1] [Fz 0; Fz 0] [Fz 0; Fz 0] [Fz 1; Fz 1] [-1; 5].

(** A root at (5,0,0) with radius 1 and a child at (6,1,0) with radius 3. *)
Definition pivot5 : DictSWC :=
  mkDictSWC "pivot5" [0; 1] [1; 3]
    [Fz 5; Fz 6] [Fz 0; Fz 1] [Fz 0; Fz 0] [Fz 1; Fz 3] [-1; 0].

(** Positive and negative coordinates, no field with a zero maximum. *)
Definition mixed2 : DictSWC :=
  mkDictSWC "mixed2" [0; 1] [1; 3]
    [Fz (-3); Fz (-1)] [Fz 1; Fz 3] [Fz 2; Fz 2] [Fz 1; Fz 3] [-1; 0].

(** Two parentless nodes. *)
Definition two_roots : DictSWC :=
  mkDictSWC "two_roots" [0; 1] [1; 1]
    [Fz 0; Fz 1] [Fz 0; Fz 0] [Fz 0; Fz 0] [Fz 1; Fz 1] [-1; -1].

Definition store_of (t : DictSWC) : store := {[ 0%nat := t ]}.

Definition str0 (_ : fnum) : string := "0.0".

(** ** Which transforms are scalings and rotations with finite entries *)




(** The tree a transform returns for the input [t] and the matrix [m]. *)
Definition moved (m : mat4) (t : DictSWC) (pts : list vec3) : DictSWC :=
  let pts' := map (λ p, vec_dot p m) (map homogeneous pts) in
  mkDictSWC (source t) (nid t) (ntype t)
    (row_T 0 pts') (row_T 1 pts') (row_T 2 pts') (nr t) (npid t).

(** What [Normalizer] computes of one column, given its minimum and maximum. *)
Definition rescaled (vs : list fnum) (lo hi : fnum) : list fnum :=
  map (λ v, fdiv (fsub v lo) hi) vs.

(** ** Finite columns *)

Definition finite_col (vs : list fnum) : Prop := Forall is_finite vs.

(** ** Python and library semantics used by the datasets *)

From Stdlib Require Import Ascii.

(** [l[idx]] on a Python list: negative indices count from the end. *)
Definition py_index {A} (l : list A) (idx : Z) : result A :=
  let n := Z.of_nat (length l) in
  if bool_decide (0 ≤ idx) then of_option IndexError (l !! Z.to_nat idx)
  else if bool_decide (0 ≤ n + idx) then of_option IndexError (l !! Z.to_nat (n + idx))
  else Raise IndexError.

(** How a [for] loop ends. *)
Inductive outcome (St : Type) :=
  | Finished (s : St)
  | Raised (e : exn) (s : St)
  | OutOfFuel.
Arguments Finished {St} s.
Arguments Raised {St} e s.
Arguments OutOfFuel {St}.

(** The exceptions of [__getitem__] at which Python's sequence iterator ends
    without an error: [IndexError] and [StopIteration]. *)
Definition ends_loop (e : exn) : bool :=
  match e with
  | IndexError | StopIteration => true
  | _ => false
  end.

(** [for a in obj: s = body(a, s)] for an object that has [__getitem__] and
    no [__iter__] (a [torch.utils.data.Dataset]): Python calls
    [obj[0], obj[1], ...] and ends the loop at the first [IndexError] or
    [StopIteration]; any other exception leaves the loop.  [fuel] bounds the
    number of calls. *)
Fixpoint for_in {A St} (fuel : nat) (getitem : Z → result A)
    (body : A → St → St) (i : nat) (s : St) : outcome St :=
  match fuel with
  | O => OutOfFuel
  | S fuel' =>
      match getitem (Z.of_nat i) with
      | Ok a => for_in fuel' getitem body (S i) (body a s)
      | Raise e => if ends_loop e then Finished s else Raised e s
      end
  end.

(** [s.rfind(c)] for a single character: its last index, or -1. *)
Fixpoint rfind_nat (c : ascii) (l : list ascii) : option nat :=
  match l with
  | [] => None
  | a :: l' =>
      match rfind_nat c l' with
      | Some i => Some (S i)
      | None => if decide (a = c) then Some 0%nat else None
      end
  end.
Definition rfind (c : ascii) (l : list ascii) : Z :=
  from_option Z.of_nat (-1) (rfind_nat c l).

(** The loop of [os.path.splitext] over the characters between the last
    separator and the last dot: true at the first one that is no dot. *)
Fixpoint has_non_dot (l : list ascii) : bool :=
  match l with
  | [] => false
  | a :: l' => if decide (a = "."%char) then has_non_dot l' else true
  end.

(** [os.path.splitext] (POSIX): the extension starts at the last dot of the
    last path component, unless only dots come before it there. *)
Definition splitext (p : string) : string * string :=
  let l := String.list_ascii_of_string p in
  let sepIndex := rfind "/"%char l in
  let dotIndex := rfind "."%char l in
  if bool_decide (sepIndex < dotIndex) then
    let filenameIndex := sepIndex + 1 in
    if has_non_dot (take (Z.to_nat (dotIndex - filenameIndex))
                      (drop (Z.to_nat filenameIndex) l))
    then (String.string_of_list_ascii (take (Z.to_nat dotIndex) l),
          String.string_of_list_ascii (drop (Z.to_nat dotIndex) l))
    else (p, ""%string)
  else (p, ""%string).

Definition startswith_sep (s : string) : bool :=
  match s with
  | String c _ => bool_decide (c = "/"%char)
  | EmptyString => false
  end.

Definition endswith_sep (s : string) : bool :=
  match last (String.list_ascii_of_string s) with
  | Some c => bool_decide (c = "/"%char)
  | None => false
  end.

(** [os.path.join(a, b)] (POSIX). *)
Definition path_join (a b : string) : string :=
  if startswith_sep b then b
  else if bool_decide (a = ""%string) || endswith_sep a then (a +:+ b)%string
  else (a +:+ "/" +:+ b)%string.

(** A directory: its sub-directories and its files, as a listing gives them. *)
#[warnings="-register-all"]
Inductive dirtree :=
  | Dir (dirs : list (string * dirtree)) (files : list string).

(** [os.walk(top)], top-down: the directory itself, then every sub-directory
    in turn. *)
Fixpoint walk (top : string) (d : dirtree) : list (string * list string * list string) :=
  match d with
  | Dir dirs files =>
      (top, map fst dirs, files)
        :: flat_map (λ nd : string * dirtree, walk (path_join top nd.1) nd.2) dirs
  end.

(** A value that went through an optional transform: as it was, or
    transformed. *)
Inductive sample (A X : Type) :=
  | Raw (a : A)
  | Mapped (x : X).
Arguments Raw {A X} a.
Arguments Mapped {A X} x.

(** [transform(a) if transform else a] *)
Definition apply_transform {A X} (transform : option (A → result X)) (a : A)
    : result (sample A X) :=
  match transform with
  | Some f => v ← f a; Ok (Mapped v)
  | None => Ok (Raw a)
  end.

(** ** datasets/pytorch/tree_folder_dataset.py *)

Module TreeFolderDataset.

(** [transform] is [Some f] for a transform that is true in a condition, by
    its [__call__], and [None] for [None] and for a transform that is false
    in a condition: the class only tests it and calls it. *)
Record t (X : Type) := mk {
  swc_dir : string;
  swcs : list string;
  transform : option (DictSWC → result X)
}.
Arguments mk {X} swc_dir swcs transform.
Arguments swc_dir {X} self : rename.
Arguments swcs {X} self : rename.
Arguments transform {X} self : rename.

Section WithFiles.

(** The directory tree under a path (empty where there is none), and
    [Tree.from_swc], the file reader, which is not in the sources. *)
Variable ls : string → dirtree.
Variable Tree_from_swc : string → result DictSWC.

(** [TreeFolderDataset.find_swcs] *)
Definition find_swcs (swc_dir : string) : list string :=
  flat_map (λ entry : string * list string * list string,
              let '(dirpath, dirs, files) := entry in
              let files := filter (λ f, (splitext f).2 = ".swc"%string) files in
              map (λ f, path_join dirpath f) files)
           (walk swc_dir (ls swc_dir)).

(** [TreeFolderDataset.__init__] *)
Definition init {X} (swc_dir : string) (transform : option (DictSWC → result X)) : t X :=
  mk swc_dir (find_swcs swc_dir) transform.

(** [TreeFolderDataset.__getitem__] *)
Definition getitem {X} (self : t X) (idx : Z) : result (sample DictSWC X * Z) :=
  path ← py_index (swcs self) idx;
  tree ← Tree_from_swc path;
  x ← apply_transform (transform self) tree;
  Ok (x, 0).

(** [TreeFolderDataset.__len__] *)
Definition len {X} (self : t X) : nat := length (swcs self).

(** [for x, y in self], collecting the pairs. *)
Definition items {X} (fuel : nat) (self : t X) : outcome (list (sample DictSWC X * Z)) :=
  for_in fuel (getitem self) (λ a s, s ++ [a]) 0 [].

End WithFiles.

End TreeFolderDataset.

(** ** datasets/pytorch/branch_dataset.py *)

(** numpy's handling of floating-point errors, one mode per kind of error. *)
Inductive errmode := em_ignore | em_warn | em_raise | em_call | em_print | em_log.

Record errsettings := mk_errsettings {
  divide : errmode;
  over : errmode;
  under : errmode;
  invalid : errmode
}.

(** The settings after [np.seterr(all=m)]. *)
Definition seterr_all (m : errmode) : errsettings := mk_errsettings m m m m.

(** A [Transform[Branch, T]] as the dataset uses it: whether it is true in a
    condition (an object is, unless its class says otherwise: a pipeline of
    transforms that has a length is false when it is empty), the text an
    f-string formats it to (what its [__repr__] returns, for a class with no
    [__str__] or [__format__] of its own) and what its [__call__] does.  The
    [Transform] base class is not in the sources. *)
Record Transform (T : Type) := mk_Transform_obj {
  truthy : bool;
  repr : string;
  call : Branch → result T
}.
Arguments mk_Transform_obj {T} truthy repr call.
Arguments truthy {T} self : rename.
Arguments repr {T} self : rename.
Arguments call {T} self br : rename.

(** The truth value of [self.transform] in a condition: [None] is false. *)
Definition is_true {T} (transform : option (Transform T)) : bool :=
  match transform with
  | Some tr => truthy tr
  | None => false
  end.

Module BranchDataset.

(** The [save] argument: [str | bool]. *)
Inductive save_arg :=
  | SaveStr (s : string)
  | SaveBool (b : bool).

Record t (T : Type) := mk {
  swc_dir : string;
  save : option string;
  transform : option (Transform T);
  branches : list (sample Branch T)
}.
Arguments mk {T} swc_dir save transform branches.
Arguments swc_dir {T} self : rename.
Arguments save {T} self : rename.
Arguments transform {T} self : rename.
Arguments branches {T} self : rename.

(** What the dataset reads and writes outside itself: the files written by
    [torch.save], by path; numpy's error settings; the warnings issued. *)
Record world (T : Type) := mk_world {
  saved : gmap string (list (sample Branch T));
  np_err : errsettings;
  warned : list (sample DictSWC BranchTree * exn)
}.
Arguments mk_world {T} saved np_err warned.
Arguments saved {T} w : rename.
Arguments np_err {T} w : rename.
Arguments warned {T} w : rename.

Section WithFiles.

(** The directory tree under a path, and the parts that are not in the
    sources: [Tree.from_swc], the [ToBranchTree()] transform, by its
    [__call__] (it is taken to be true in a condition), and
    [Tree.get_branches]. *)
Variable ls : string → dirtree.
Variable Tree_from_swc : string → result DictSWC.
Variable ToBranchTree : DictSWC → result BranchTree.
Variable Tree_get_branches : DictSWC → list Branch.

(** [BranchDataset.get_filename] *)
Definition get_filename {T} (transform : option (Transform T)) : string :=
  let trans_name :=
    match transform with
    | Some tr => if truthy tr then ("_" +:+ repr tr)%string else ""%string
    | None => ""%string
    end in
  ("BranchDataset" +:+ trans_name +:+ ".pt")%string.

(** The [try] block of the loop of [get_branches]: the branches of one tree,
    transformed. *)
Definition attempt {T} (transform : option (Transform T))
    (x : sample DictSWC BranchTree) : result (list (sample Branch T)) :=
  let brs :=
    match x with
    | Mapped bt => get_branches bt
    | Raw tree => Tree_get_branches tree
    end in
  match transform with
  | Some tr =>
      if truthy tr then rmapM (λ br, v ← call tr br; Ok (Mapped v)) brs
      else Ok (map Raw brs)
  | None => Ok (map Raw brs)
  end.

(** What the tree [bt] of the loop adds to the branches, and the warning it
    causes. *)
Definition kept {T} (transform : option (Transform T)) (bt : BranchTree)
    : list (sample Branch T) :=
  match attempt transform (Mapped bt) with Ok brs => brs | Raise _ => [] end.

Definition skipped {T} (transform : option (Transform T)) (bt : BranchTree)
    : option (sample DictSWC BranchTree * exn) :=
  match attempt transform (Mapped bt) with
  | Ok _ => None
  | Raise ex => Some (Mapped bt, ex)
  end.

(** The body of the loop of [get_branches]: the [try] with its [except]. *)
Definition collect {T} (transform : option (Transform T))
    (xy : sample DictSWC BranchTree * Z)
    (s : list (sample Branch T) * list (sample DictSWC BranchTree * exn))
    : list (sample Branch T) * list (sample DictSWC BranchTree * exn) :=
  let '(x, y) := xy in
  let '(branches, warned) := s in
  match attempt transform x with
  | Ok brs => (branches ++ brs, warned)
  | Raise ex => (branches, warned ++ [(x, ex)])
  end.

(** [BranchDataset.get_branches]; [None] only if the loop ran out of the
    calls it is allowed. *)
Definition get_branches {T} (swc_dir : string) (transform : option (Transform T))
    (w : world T) : option (result (list (sample Branch T)) * world T) :=
  let branch_trees := TreeFolderDataset.init ls swc_dir (Some ToBranchTree) in
  let old_settings := np_err w in
  match for_in (S (TreeFolderDataset.len branch_trees))
          (TreeFolderDataset.getitem Tree_from_swc branch_trees)
          (collect transform) 0 ([], warned w) with
  | Finished (branches, warned') =>
      Some (Ok branches, mk_world (saved w) old_settings warned')
  | Raised e (_, warned') =>
      Some (Raise e, mk_world (saved w) (seterr_all em_raise) warned')
  | OutOfFuel => None
  end.

(** [BranchDataset.__init__(swc_dir, save=True, transform=None)] *)
Definition init {T} (swc_dir : string) (save : option save_arg)
    (transform : option (Transform T)) (w : world T)
    : option (result (t T) * world T) :=
  let self_save :=
    match default (SaveBool true) save with
    | SaveStr s => Some s
    | SaveBool true => Some (path_join swc_dir (get_filename transform))
    | SaveBool false => None
    end in
  (* [if self.save]: [None] and the empty string are false *)
  let path :=
    match self_save with
    | Some s => if decide (s = ""%string) then None else Some s
    | None => None
    end in
  match path ≫= (λ s, saved w !! s) with
  | Some brs => Some (Ok (mk swc_dir self_save transform brs), w)
  | None =>
      match get_branches swc_dir transform w with
      | None => None
      | Some (Raise e, w') => Some (Raise e, w')
      | Some (Ok brs, w') =>
          Some (Ok (mk swc_dir self_save transform brs),
                match path with
                | Some s => mk_world (<[s := brs]> (saved w')) (np_err w') (warned w')
                | None => w'
                end)
      end
  end.

(** [BranchDataset.__getitem__] *)
Definition getitem {T} (self : t T) (idx : Z) : result (sample Branch T * Z) :=
  b ← py_index (branches self) idx; Ok (b, 0).

(** [BranchDataset.__len__] *)
Definition len {T} (self : t T) : nat := length (branches self).

(** [for x, y in self], collecting the pairs. *)
Definition items {T} (fuel : nat) (self : t T) : outcome (list (sample Branch T * Z)) :=
  for_in fuel (getitem self) (λ a s, s ++ [a]) 0 [].

End WithFiles.

End BranchDataset.

(** ** Example datasets *)

(** A directory with two swc files, both holding the tree [fork5]; a reader
    that fails on the second of them. *)
Definition two_files (_ : string) : dirtree :=
  Dir [] ["a.swc"; "b.swc"]%string.
Definition read_fork5 (_ : string) : result DictSWC := Ok fork5.
Definition read_first_only (p : string) : result DictSWC :=
  if decide (p = "d/a.swc"%string) then Ok fork5 else Raise ValueError.

(** Two transforms of branches with one label, and one that raises on the
    branches of two nodes. *)
Definition count_nodes : Transform Z :=
  mk_Transform_obj true "count" (λ br, Ok (Z.of_nat (length (nodes br)))).
Definition count_edges : Transform Z :=
  mk_Transform_obj true "count" (λ br, Ok (Z.of_nat (length (nodes br)) - 1)).
Definition long_only : Transform Z :=
  mk_Transform_obj true "long"
    (λ br, if decide (length (nodes br) = 2%nat) then Raise ValueError
           else Ok (Z.of_nat (length (nodes br)))).

(** A branch tree with the branches 0-1-2 and 2-3 under its root. *)
Definition two_branches : BranchTree :=
  mkBranchTree chain3
    [(0, [mkBranch None [Node.mk 0 1 (Fz 0) (Fz 0) (Fz 0) (Fz 1) (-1);
                         Node.mk 1 3 (Fz 1) (Fz 0) (Fz 0) (Fz 1) 0;
                         Node.mk 2 3 (Fz 2) (Fz 0) (Fz 0) (Fz 1) 1];
          mkBranch None [Node.mk 2 3 (Fz 2) (Fz 0) (Fz 0) (Fz 1) 1;
                         Node.mk 3 3 (Fz 3) (Fz 1) (Fz 0) (Fz 1) 2]])].

(** No saved file, numpy's default error settings, no warning yet. *)
Definition world0 : BranchDataset.world Z :=
  BranchDataset.mk_world ∅ (mk_errsettings em_warn em_warn em_ignore em_warn) [].

(** * Properties *)

Lemma stack3_spec xs ys zs :
  length xs = length ys → length ys = length zs →
  ∃ l : list vec3, stack3 xs ys zs = Ok l ∧ length l = length xs ∧
       ∀ i a b c, xs !! i = Some a → ys !! i = Some b → zs !! i = Some c →
                  l !! i = Some ((a, b, c) : vec3).
Proof.
  revert ys zs. induction xs as [|a xs IH]; intros [|b ys] [|c zs] Hxy Hyz;
    simpl in *; try discriminate.
  - exists []. split_and!; [done..|]. intros i ????; by rewrite lookup_nil.
  - destruct (IH ys zs) as (l & -> & Hlen & Hl); [congruence..|].
    exists ((a, b, c) :: l). simpl. split_and!; [done|by rewrite Hlen|].
    intros [|i] ??? ; simpl; [by intros [= ->] [= ->] [= ->]|]. apply Hl.
Qed.

Lemma nonzero_from_elem i bs j :
  j ∈ nonzero_from i bs ↔ ∃ k, j = (i + k)%nat ∧ bs !! k = Some true.
Proof.
  revert i. induction bs as [|b bs IH]; intros i; simpl.
  - split; [by intros ?%elem_of_nil|]. intros (k & _ & Hk). by rewrite lookup_nil in Hk.
  - rewrite elem_of_app, IH. split.
    + intros [Hj|(k & -> & Hk)].
      * destruct b; [|by apply elem_of_nil in Hj].
        apply list_elem_of_singleton in Hj as ->. exists 0%nat. split; [lia|done].
      * exists (S k). split; [lia|done].
    + intros ([|k] & -> & Hk); simpl in Hk.
      * left. injection Hk as ->. rewrite Nat.add_0_r. apply list_elem_of_singleton; done.
      * right. exists k. split; [lia|done].
Qed.

Lemma nonzero_from_length i (l : list Z) :
  length (nonzero_from i (map (λ p, p =? -1) l)) = length (filter (λ p, p = -1) l).
Proof.
  revert i. induction l as [|p l IH]; intros i; simpl; [done|].
  rewrite length_app, IH, filter_cons.
  destruct (Z.eqb_spec p (-1)); case_decide; simpl; try lia; done.
Qed.

Lemma np_nonzero_unique (t : DictSWC) idx :
  n_roots t = 1%nat → npid t !! idx = Some (-1) →
  np_nonzero (map (λ p, p =? -1) (npid t)) = [idx].
Proof.
  unfold n_roots, np_nonzero. intros Hn Hidx.
  rewrite <- nonzero_from_length with (i := 0%nat) in Hn.
  assert (idx ∈ nonzero_from 0 (map (λ p, p =? -1) (npid t))) as Hin.
  { apply nonzero_from_elem. exists idx. split; [done|].
    rewrite list_lookup_fmap, Hidx. done. }
  destruct (nonzero_from 0 _) as [|j [|??]]; simpl in Hn; try discriminate.
  by apply list_elem_of_singleton in Hin as ->.
Qed.

Lemma item_not_one {A} (l : list A) : length l ≠ 1%nat → item l = Raise ValueError.
Proof. by destruct l as [|? [|??]]. Qed.

(** ** The transforms *)

Lemma xyz_spec (t : DictSWC) :
  wf_table t →
  ∃ pts : list vec3, xyz t = Ok pts ∧ length pts = length (nid t) ∧
         ∀ i a b c, nx t !! i = Some a → ny t !! i = Some b → nz t !! i = Some c →
                    pts !! i = Some ((a, b, c) : vec3).
Proof.
  intros (_ & Hx & Hy & Hz & _). unfold xyz.
  destruct (stack3_spec (nx t) (ny t) (nz t)) as (l & Hl & Hlen & Hi); [congruence..|].
  exists l. split_and!; [done|congruence|done].
Qed.

Lemma apply_matrix_spec m x (σ : store) t pts :
  σ !! x = Some t → xyz t = Ok pts →
  apply_matrix m x σ = Ok (fresh (dom σ), <[fresh (dom σ) := moved m t pts]> σ).
Proof.
  intros Hx Hpts. unfold apply_matrix, xyzw. unfold_M.
  rewrite Hx, Hpts. simpl. rewrite Hx.
  rewrite !lookup_insert_eq, !insert_insert_eq. done.
Qed.

Lemma fresh_loc_unused (σ : store) : σ !! fresh (dom σ) = None.
Proof. apply not_elem_of_dom, is_fresh. Qed.

Lemma effective_matrix_origin self x σ :
  center self = origin → effective_matrix self x σ = Ok (tm self, σ).
Proof. unfold effective_matrix. by intros ->. Qed.

Lemma effective_matrix_pivot self x (σ : store) t idx c0 c1 c2 :
  center self ≠ origin → σ !! x = Some t → wf_table t →
  n_roots t = 1%nat → npid t !! idx = Some (-1) →
  nx t !! idx = Some c0 → ny t !! idx = Some c1 → nz t !! idx = Some c2 →
  effective_matrix self x σ =
    Ok (mat_dot (mat_dot (translate3d (fneg c0) (fneg c1) (fneg c2)) (tm self))
                (translate3d c0 c1 c2), σ).
Proof.
  intros Hc Hx Hwf Hn Hidx H0 H1 H2.
  destruct (xyz_spec t Hwf) as (pts & Hpts & _ & Hi).
  unfold effective_matrix. unfold_M.
  destruct (center self); try done;
    rewrite Hx, (np_nonzero_unique t idx Hn Hidx); simpl;
    rewrite Hx, Hpts; simpl; rewrite (Hi idx c0 c1 c2 H0 H1 H2); done.
Qed.

Lemma effective_matrix_ambiguous self x (σ : store) t :
  center self ≠ origin → σ !! x = Some t → n_roots t ≠ 1%nat →
  effective_matrix self x σ = Raise ValueError.
Proof.
  intros Hc Hx Hn. unfold effective_matrix. unfold_M.
  assert (item (np_nonzero (map (λ p, p =? -1) (npid t))) = Raise ValueError) as Hitem.
  { apply item_not_one. unfold np_nonzero. by rewrite nonzero_from_length. }
  destruct (center self); try done; by rewrite Hx, Hitem.
Qed.

Lemma root_index (t : DictSWC) :
  n_roots t = 1%nat → ∃ idx, npid t !! idx = Some (-1).
Proof.
  unfold n_roots. intros Hn. apply list_elem_of_lookup.
  destruct (filter (λ p, p = -1) (npid t)) as [|p l] eqn:Hf; [discriminate|].
  assert (p ∈ filter (λ p, p = -1) (npid t)) as Hp by (rewrite Hf; left).
  apply list_elem_of_filter in Hp as [-> Hp]. done.
Qed.

Lemma _Transform_call_spec self x (σ : store) t :
  σ !! x = Some t → wf_table t → center self = origin ∨ n_roots t = 1%nat →
  ∃ m pts, xyz t = Ok pts ∧ length pts = length (nid t) ∧
    _Transform_call self x σ =
      Ok (fresh (dom σ), <[fresh (dom σ) := moved m t pts]> σ).
Proof.
  intros Hx Hwf Hmode.
  destruct (xyz_spec t Hwf) as (pts & Hpts & Hlen & _).
  unfold _Transform_call. unfold mbind at 1. unfold M_MBind, M_bind.
  destruct (decide (center self = origin)) as [Ho|Hno].
  - exists (tm self), pts. rewrite (effective_matrix_origin _ _ _ Ho).
    split_and!; [done..|]. by apply apply_matrix_spec.
  - destruct Hmode as [?|Hn]; [done|].
    destruct (root_index t Hn) as (idx & Hidx).
    pose proof Hwf as (_ & Hlx & Hly & Hlz & _ & Hlp).
    pose proof (lookup_lt_Some _ _ _ Hidx) as Hlt.
    destruct (lookup_lt_is_Some_2 (nx t) idx) as [c0 H0]; [lia|].
    destruct (lookup_lt_is_Some_2 (ny t) idx) as [c1 H1]; [lia|].
    destruct (lookup_lt_is_Some_2 (nz t) idx) as [c2 H2]; [lia|].
    rewrite (effective_matrix_pivot self x σ t idx c0 c1 c2) by done.
    eexists _, pts. split_and!; [done..|]. by apply apply_matrix_spec.
Qed.

Lemma row_T_length i (l : list vec4) : length (row_T i l) = length l.
Proof. unfold row_T. by rewrite length_map. Qed.

Lemma moved_wf m t pts :
  wf_table t → length pts = length (nid t) → wf_table (moved m t pts).
Proof.
  intros (? & ? & ? & ? & ? & ?) Hlen. unfold wf_table, moved; simpl.
  rewrite !row_T_length, !length_map. split_and!; congruence.
Qed.

Lemma normalize_step (y : loc) (σ : store) t k v vs :
  σ !! y = Some t → ndata_get k t = v :: vs →
  (vs ← read (ndata_get k) y;
   lo ← lift (np_min vs);
   hi ← lift (np_max vs);
   write (ndata_set k (map (λ v, fdiv (fsub v lo) hi) vs)) y) σ =
  Ok ((), <[y := ndata_set k (rescaled (v :: vs) (foldl fmin2 v vs) (foldl fmax2 v vs)) t]> σ).
Proof.
  intros Hy Hk. unfold_M. rewrite Hy, Hk. simpl. rewrite Hy. done.
Qed.

Lemma Normalizer_call_spec x (σ : store) t :
  σ !! x = Some t → wf_table t → nid t ≠ [] →
  ∃ t', Normalizer_call x σ = Ok (fresh (dom σ), <[fresh (dom σ) := t']> σ) ∧
    source t' = source t ∧ nid t' = nid t ∧ ntype t' = ntype t ∧ npid t' = npid t ∧
    ∀ k, ∃ lo hi, np_min (ndata_get k t) = Ok lo ∧ np_max (ndata_get k t) = Ok hi ∧
                  ndata_get k t' = rescaled (ndata_get k t) lo hi.
Proof.
  intros Hx (Hty & Hlx & Hly & Hlz & Hlr & Hlp) Hne.
  assert (0 < length (nid t))%nat as Hpos by (destruct (nid t); simpl; [done|lia]).
  destruct (nx t) as [|x0 xs] eqn:Ex; [simpl in Hlx; lia|].
  destruct (ny t) as [|y0 ys] eqn:Ey; [simpl in Hly; lia|].
  destruct (nz t) as [|z0 zs] eqn:Ez; [simpl in Hlz; lia|].
  destruct (nr t) as [|r0 rs] eqn:Er; [simpl in Hlr; lia|].
  set (y := fresh (dom σ)).
  eexists. split.
  - unfold Normalizer_call. unfold mbind at 1 2. unfold M_MBind, M_bind.
    unfold copy at 1. rewrite Hx. fold y. simpl for_.
    unfold mbind at 1. unfold M_MBind at 1. unfold M_bind at 1.
    erewrite normalize_step; [|apply lookup_insert_eq|simpl; exact Ex].
    rewrite insert_insert_eq.
    unfold mbind at 1. unfold M_MBind at 1. unfold M_bind at 1.
    erewrite normalize_step; [|apply lookup_insert_eq|simpl; exact Ey].
    rewrite insert_insert_eq.
    unfold mbind at 1. unfold M_MBind at 1. unfold M_bind at 1.
    erewrite normalize_step; [|apply lookup_insert_eq|simpl; exact Ez].
    rewrite insert_insert_eq.
    unfold mbind at 1. unfold M_MBind at 1. unfold M_bind at 1.
    erewrite normalize_step; [|apply lookup_insert_eq|simpl; exact Er].
    rewrite insert_insert_eq. reflexivity.
  - simpl. split_and!; [done..|].
    intros []; simpl; rewrite ?Ex, ?Ey, ?Ez, ?Er; eauto.
Qed.






(** C8: on a tree in which zero or several nodes carry the parent sentinel
    -1, a transform whose pivot mode is [root] or [soma] raises (numpy's
    [ValueError] from [.item()], the spec's AmbiguousRootError); with the
    mode [origin] the call is the plain application of the raw matrix, with
    no root lookup, and succeeds whatever the number of roots. *)
Theorem ambiguous_root_raises self x (σ : store) t :
  σ !! x = Some t →
  (center self ≠ origin → n_roots t ≠ 1%nat →
     _Transform_call self x σ = Raise ValueError) ∧
  (center self = origin →
     _Transform_call self x σ = apply_matrix (tm self) x σ ∧
     (wf_table t → ∃ y σ', _Transform_call self x σ = Ok (y, σ'))).
Proof.
  intros Hx. split.
  - intros Hc Hn. unfold _Transform_call. unfold mbind, M_MBind, M_bind.
    by rewrite (effective_matrix_ambiguous self x σ t Hc Hx Hn).
  - intros Ho. split.
    + unfold _Transform_call. unfold mbind, M_MBind, M_bind.
      by rewrite (effective_matrix_origin self x σ Ho).
    + intros Hwf.
      destruct (_Transform_call_spec self x σ t Hx Hwf (or_introl Ho))
        as (m & pts & _ & _ & ->). eauto.
Qed.

Lemma ambiguous_root_raises_witness :
  _Transform_call (Scale str0 (Fz 2) (Fz 2) (Fz 2) None) 0%nat (store_of two_roots)
    = Raise ValueError ∧
  ∃ y σ', _Transform_call (Scale str0 (Fz 2) (Fz 2) (Fz 2) (Some origin)) 0%nat
            (store_of two_roots) = Ok (y, σ').
Proof.
  split.
  - refine (proj1 (ambiguous_root_raises _ 0%nat (store_of two_roots) two_roots _) _ _);
      [reflexivity | discriminate | vm_compute; lia].
  - refine (proj2 (proj2 (ambiguous_root_raises _ 0%nat (store_of two_roots) two_roots _) _) _);
      [reflexivity | reflexivity | by repeat split].
Defined.

(** C4, as the code has it: every matrix transform (any [_Transform], so
    Translate, Scale, Rotate, RotateX/Y/Z), on a well-formed tree with one
    root when the pivot mode needs it, returns a new object with the same
    node count, ids, types, parents and radii, only the position columns
    replaced, and leaves the input object as it was.  [Normalizer] also
    returns a new object with the same ids, types and parents and leaves the
    input as it was, but it rescales the radius column together with the
    three position columns. *)
Theorem transforms_keep_topology self x (σ : store) t :
  σ !! x = Some t → wf_table t →
  (center self = origin ∨ n_roots t = 1%nat →
   ∃ y σ' t',
     _Transform_call self x σ = Ok (y, σ') ∧
     σ !! y = None ∧ σ' = <[y := t']> σ ∧ σ' !! x = Some t ∧
     wf_table t' ∧ source t' = source t ∧ nid t' = nid t ∧ ntype t' = ntype t ∧
     npid t' = npid t ∧ nr t' = nr t) ∧
  (nid t ≠ [] →
   ∃ y σ' t',
     Normalizer_call x σ = Ok (y, σ') ∧
     σ !! y = None ∧ σ' = <[y := t']> σ ∧ σ' !! x = Some t ∧
     source t' = source t ∧ nid t' = nid t ∧ ntype t' = ntype t ∧
     npid t' = npid t ∧
     ∀ k, ∃ lo hi, np_min (ndata_get k t) = Ok lo ∧ np_max (ndata_get k t) = Ok hi ∧
                   ndata_get k t' = rescaled (ndata_get k t) lo hi).
Proof.
  intros Hx Hwf.
  assert (x ≠ fresh (dom σ)) as Hne.
  { intros ->. by rewrite fresh_loc_unused in Hx. }
  split.
  - intros Hmode.
    destruct (_Transform_call_spec self x σ t Hx Hwf Hmode) as (m & pts & Hpts & Hlen & ->).
    eexists _, _, _. split; [reflexivity|].
    split_and!; try done.
    + apply fresh_loc_unused.
    + by rewrite lookup_insert_ne.
    + by apply moved_wf.
  - intros Hnid.
    destruct (Normalizer_call_spec x σ t Hx Hwf Hnid)
      as (t' & -> & Hs & Hi & Hty & Hp & Hk).
    eexists _, _, t'. split; [reflexivity|].
    split_and!; try done.
    + apply fresh_loc_unused.
    + by rewrite lookup_insert_ne.
Qed.

Lemma transforms_keep_topology_witness :
  (∃ y σ' t',
     _Transform_call (Translate str0 (Fz 1) (Fz 2) (Fz 3)) 0%nat (store_of pivot5)
       = Ok (y, σ') ∧
     σ' !! y = Some t' ∧ σ' !! 0%nat = Some pivot5 ∧
     nid t' = nid pivot5 ∧ npid t' = npid pivot5 ∧ nr t' = nr pivot5) ∧
  (∃ y σ' t',
     Normalizer_call 0%nat (store_of pivot5) = Ok (y, σ') ∧
     σ' !! y = Some t' ∧ σ' !! 0%nat = Some pivot5 ∧
     nid t' = nid pivot5 ∧ npid t' = npid pivot5).
Proof.
  destruct (transforms_keep_topology (Translate str0 (Fz 1) (Fz 2) (Fz 3)) 0%nat
              (store_of pivot5) pivot5) as [HT HN];
    [reflexivity | by repeat split |].
  split.
  - destruct HT as (y & σ' & t' & Hc & _ & -> & Hx & _ & _ & Hi & _ & Hp & Hr);
      [by left|].
    exists y, (<[y := t']> (store_of pivot5)), t'.
    split_and!; [done|apply lookup_insert_eq|done..].
  - destruct HN as (y & σ' & t' & Hc & _ & -> & Hx & _ & Hi & _ & Hp & _);
      [discriminate|].
    exists y, (<[y := t']> (store_of pivot5)), t'.
    split_and!; [done|apply lookup_insert_eq|done..].
Defined.

(** C4 as stated fails: [Normalizer] changes the radii. *)
Lemma Normalizer_changes_radii :
  ∃ y σ' t',
    Normalizer_call 0%nat (store_of mixed2) = Ok (y, σ') ∧
    σ' !! y = Some t' ∧
    nr mixed2 = [Fz 1; Fz 3] ∧
    Forall2 feq (nr t') [Fz 0; Fin (2 # 3)] ∧
    ¬ Forall2 feq (nr t') (nr mixed2).
Proof.
  eexists _, _, _. split; [vm_compute; reflexivity|].
  split; [vm_compute; reflexivity|].
  split; [reflexivity|]. split.
  - repeat constructor.
  - intros H. inversion H as [|???? H1 _]. vm_compute in H1. discriminate.
Qed.

(** C10: with no pivot mode given, Scale, Rotate, RotateX, RotateY and
    RotateZ (constructors and [transform] class methods alike) take the mode
    [root]; Translate has no pivot argument, its mode is [origin], and its
    call is the application of its raw translation matrix. *)
Theorem default_pivot_modes np_cos np_sin str_float format_4f
    (a b c : fnum) (n : vec3) (x : loc) :
  center (Scale str_float a b c None) = root ∧
  center (Rotate np_cos np_sin str_float format_4f n a None) = root ∧
  center (RotateX np_cos np_sin str_float a None) = root ∧
  center (RotateY np_cos np_sin str_float a None) = root ∧
  center (RotateZ np_cos np_sin str_float a None) = root ∧
  Scale_transform str_float x a b c None
    = _Transform_call (Scale str_float a b c (Some root)) x ∧
  Rotate_transform np_cos np_sin str_float format_4f x n a None
    = _Transform_call (Rotate np_cos np_sin str_float format_4f n a (Some root)) x ∧
  RotateX_transform np_cos np_sin str_float x a None
    = _Transform_call (RotateX np_cos np_sin str_float a (Some root)) x ∧
  RotateY_transform np_cos np_sin str_float x a None
    = _Transform_call (RotateY np_cos np_sin str_float a (Some root)) x ∧
  RotateZ_transform np_cos np_sin str_float x a None
    = _Transform_call (RotateZ np_cos np_sin str_float a (Some root)) x ∧
  center (Translate str_float a b c) = origin ∧
  tm (Translate str_float a b c) = translate3d a b c ∧
  _Transform_call (Translate str_float a b c) x = apply_matrix (translate3d a b c) x ∧
  Translate_transform str_float x a b c = apply_matrix (translate3d a b c) x.
Proof.
  destruct n as [[n0 n1] n2]. split_and!; reflexivity.
Qed.

(** C9 fails on the code: RotateY and RotateZ are built with the label
    "RotateX-<theta>", so the three axis rotations of one angle have one and
    the same label. *)
Theorem rotate_labels_collide np_cos np_sin str_float (theta : fnum) (c : option Center) :
  _Transform_repr (RotateX np_cos np_sin str_float theta c)
    = ("RotateX-" ++ str_float theta)%string ∧
  _Transform_repr (RotateY np_cos np_sin str_float theta c)
    = _Transform_repr (RotateX np_cos np_sin str_float theta c) ∧
  _Transform_repr (RotateZ np_cos np_sin str_float theta c)
    = _Transform_repr (RotateX np_cos np_sin str_float theta c).
Proof. split_and!; reflexivity. Qed.

(** C2 fails on the code: [Normalizer] divides by the maximum of the column
    as it was, not by the range left after the minimum is subtracted.  On
    [mixed2] the column x = [-3, -1] becomes [0, -2] (outside [0, 1]), the
    column y = [1, 3] becomes [0, 2/3] (maximum not 1), and the constant
    column z = [2, 2] becomes [0, 0] (finite, no division by zero). *)
Theorem Normalizer_divides_by_raw_max :
  ∃ y σ' t',
    Normalizer_call 0%nat (store_of mixed2) = Ok (y, σ') ∧
    σ' !! y = Some t' ∧
    Forall2 feq (nx t') [Fz 0; Fz (-2)] ∧
    Forall2 feq (ny t') [Fz 0; Fin (2 # 3)] ∧
    Forall2 feq (nz t') [Fz 0; Fz 0].
Proof.
  eexists _, _, _. split; [vm_compute; reflexivity|].
  split; [vm_compute; reflexivity|].
  split_and!; repeat constructor.
Qed.

(** ** Paths, edges and the extractor contract *)

Lemma rows_snd (t : DictSWC) : wf_table t → (rows t).*2 = nid t.
Proof. intros (_ & _ & _ & _ & _ & Hp). apply snd_zip. lia. Qed.

Lemma row_of_id (t : DictSWC) v :
  wf_table t → v ∈ nid t → ∃ p, (p, v) ∈ rows t.
Proof.
  intros Hwf Hv. rewrite <- (rows_snd t Hwf) in Hv.
  apply list_elem_of_fmap in Hv as ([p v'] & -> & Hin). eauto.
Qed.

Lemma snd_functional {A B} (l : list (A * B)) a a' b :
  NoDup (l.*2) → (a, b) ∈ l → (a', b) ∈ l → a = a'.
Proof.
  induction l as [|[a0 b0] l IH]; simpl; [by intros _ ?%elem_of_nil|].
  intros [Hnot Hnd]%NoDup_cons [Heq|Hin]%elem_of_cons [Heq'|Hin']%elem_of_cons.
  - congruence.
  - injection Heq as -> ->. destruct Hnot.
    apply list_elem_of_fmap. by exists (a', b0).
  - injection Heq' as -> ->. destruct Hnot.
    apply list_elem_of_fmap. by exists (a, b0).
  - by apply IH.
Qed.

Lemma parent_unique (t : DictSWC) p p' v :
  wf_table t → NoDup (nid t) → (p, v) ∈ rows t → (p', v) ∈ rows t → p = p'.
Proof.
  intros Hwf Hnd. apply snd_functional. by rewrite rows_snd.
Qed.

Lemma root_ids_elem (t : DictSWC) v : v ∈ root_ids t ↔ (-1, v) ∈ rows t.
Proof.
  unfold root_ids. rewrite list_elem_of_fmap. split.
  - intros ([p v'] & -> & [Hp Hin]%list_elem_of_filter). simpl in *. by subst.
  - intros Hin. exists (-1, v). split; [done|]. by apply list_elem_of_filter.
Qed.

Lemma edges_elem (t : DictSWC) p v : (p, v) ∈ edges t ↔ p ≠ -1 ∧ (p, v) ∈ rows t.
Proof. unfold edges. by rewrite list_elem_of_filter. Qed.

Lemma edges_children_NoDup (t : DictSWC) :
  wf_table t → NoDup (nid t) → NoDup ((edges t).*2).
Proof.
  intros Hwf Hnd. rewrite <- (rows_snd t Hwf) in Hnd.
  refine (sublist_NoDup _ _ Hnd _).
  apply fmap_sublist, sublist_filter.
Qed.

Lemma pairs_snd (l : list Z) : (pairs l).*2 = tail l.
Proof. unfold pairs. apply snd_zip. destruct l; simpl; lia. Qed.

Lemma last_tail (l : list Z) : (2 ≤ length l)%nat → last (tail l) = last l.
Proof. destruct l as [|a [|b l]]; simpl; try lia. done. Qed.

Lemma removelast_or_last {A} (k : list A) v :
  v ∈ k → v ∈ removelast k ∨ last k = Some v.
Proof.
  induction k as [|a k IH]; [by intros ?%elem_of_nil|].
  destruct k as [|b k].
  - intros ->%list_elem_of_singleton. by right.
  - intros [->|Hin]%elem_of_cons.
    + left. simpl. left.
    + destruct (IH Hin) as [H|H].
      * left. change (v ∈ a :: removelast (b :: k)). by right.
      * right. by rewrite last_cons_cons.
Qed.

Lemma pair_child_position (l : list Z) p v :
  (p, v) ∈ pairs l → v ∈ interior l ∨ last l = Some v.
Proof.
  intros Hin.
  assert (v ∈ tail l) as Hv.
  { rewrite <- pairs_snd. apply list_elem_of_fmap. by exists (p, v). }
  destruct (removelast_or_last _ _ Hv) as [H|H]; [by left|right].
  destruct l as [|a [|b l]]; simpl in *; try done.
Qed.

Lemma concat_fmap_snd {A B} (ls : list (list (A * B))) :
  (concat ls).*2 = concat (map (fmap snd) ls).
Proof.
  induction ls as [|l ls IH]; simpl; [done|]. by rewrite fmap_app, IH.
Qed.

Lemma elem_of_concat {A} (ls : list (list A)) x :
  x ∈ concat ls ↔ ∃ l, l ∈ ls ∧ x ∈ l.
Proof.
  induction ls as [|l ls IH]; simpl.
  - split; [by intros ?%elem_of_nil|]. by intros (? & ?%elem_of_nil & _).
  - rewrite elem_of_app, IH. split.
    + intros [H|(l' & H1 & H2)]; [exists l; split; [left|done]|].
      exists l'. split; [by right|done].
    + intros (l' & [->|H1]%elem_of_cons & H2); [by left|right; eauto].
Qed.

(** One element picked from each block of a duplicate-free concatenation. *)
Lemma NoDup_picked {A} (ls : list (list A)) (xs : list A) :
  Forall2 (λ l x, x ∈ l) ls xs → NoDup (concat ls) → NoDup xs.
Proof.
  induction 1 as [|l x ls xs Hx Hrest IH]; simpl; [constructor|].
  intros (Hl & Hdisj & Hls)%NoDup_app. constructor; [|by apply IH].
  intros Hin. apply (Hdisj x Hx). apply elem_of_concat.
  clear -Hrest Hin. induction Hrest as [|l' x' ls xs Hx' _ IH'].
  - by apply elem_of_nil in Hin.
  - apply elem_of_cons in Hin as [->|Hin].
    + exists l'. split; [left|done].
    + destruct (IH' Hin) as (l0 & ? & ?). exists l0. split; [by right|done].
Qed.

Lemma contract_pair_edge t brs br p v :
  extractor_contract t brs →
  br ∈ brs → (p, v) ∈ pairs (branch_ids br) → (p, v) ∈ edges t.
Proof.
  intros [_ Hperm] Hbr Hin. rewrite <- Hperm.
  apply elem_of_concat. exists (pairs (branch_ids br)). split; [|done].
  apply list_elem_of_In, in_map_iff. exists br. split; [done|].
  by apply list_elem_of_In.
Qed.

Lemma contract_edge_pair t brs p v :
  extractor_contract t brs →
  (p, v) ∈ edges t → ∃ br, br ∈ brs ∧ (p, v) ∈ pairs (branch_ids br).
Proof.
  intros [_ Hperm] Hin. rewrite <- Hperm in Hin.
  apply elem_of_concat in Hin as (l & Hl & Hin).
  apply list_elem_of_In, in_map_iff in Hl as (br & <- & Hbr).
  exists br. split; [by apply list_elem_of_In|done].
Qed.

Lemma lasts_in_tails t brs lasts :
  Forall (branch_ok t) brs →
  Forall2 (λ br v, last (branch_ids br) = Some v) brs lasts →
  Forall2 (λ l x, x ∈ l) (map (λ br, tail (branch_ids br)) brs) lasts.
Proof.
  intros Hok Hlasts. induction Hlasts as [|br v brs' ls Hv _ IH]; simpl; constructor.
  - apply Forall_cons in Hok as [(Hlen & _) _].
    rewrite <- last_tail in Hv by done. by apply last_Some_elem_of.
  - apply IH. by apply Forall_cons in Hok as [_ ?].
Qed.

Lemma contract_lasts_NoDup t brs lasts :
  valid_tree t → extractor_contract t brs →
  Forall2 (λ br v, last (branch_ids br) = Some v) brs lasts →
  NoDup lasts.
Proof.
  intros (Hwf & Hnd & _) [Hok Hperm] Hlasts.
  apply (NoDup_picked (map (λ br, tail (branch_ids br)) brs)).
  - by eapply lasts_in_tails.
  - pose proof (edges_children_NoDup t Hwf Hnd) as He.
    rewrite <- Hperm, concat_fmap_snd, map_map in He.
    erewrite map_ext in He; [exact He|]. intros br; simpl. by rewrite pairs_snd.
Qed.

Lemma Forall2_last_elem brs lasts v :
  Forall2 (λ br v, last (branch_ids br) = Some v) brs lasts →
  v ∈ lasts ↔ ∃ br, br ∈ brs ∧ last (branch_ids br) = Some v.
Proof.
  induction 1 as [|br w brs' ls Hw _ IH].
  - split; [by intros ?%elem_of_nil|]. by intros (? & ?%elem_of_nil & _).
  - rewrite elem_of_cons, IH. split.
    + intros [->|(br' & ? & ?)]; [exists br; split; [left|done]|].
      exists br'. split; [by right|done].
    + intros (br' & [->|Hin]%elem_of_cons & Hl); [left; congruence|right; eauto].
Qed.

(** The last nodes of the branches are exactly the non-root nodes that are
    branching nodes or tips. *)
Lemma contract_lasts_elem t brs lasts v :
  valid_tree t → extractor_contract t brs →
  Forall2 (λ br v, last (branch_ids br) = Some v) brs lasts →
  v ∈ lasts ↔ v ∈ nid t ∧ (v ∉ root_ids t) ∧ n_children t v ≠ 1%nat.
Proof.
  intros Hvalid Hc Hlasts. pose proof Hvalid as (Hwf & Hnd & _).
  pose proof Hc as [Hok _].
  rewrite (Forall2_last_elem brs lasts v Hlasts). split.
  - intros (br & Hbr & Hlast).
    pose proof (proj1 (Forall_forall _ _) Hok br Hbr) as (Hlen & _ & _ & Hend).
    rewrite Hlast in Hend; simpl in Hend.
    assert (v ∈ tail (branch_ids br)) as Hv.
    { rewrite <- last_tail in Hlast by done. by apply last_Some_elem_of. }
    rewrite <- pairs_snd in Hv. apply list_elem_of_fmap in Hv as ([p v'] & -> & Hin).
    apply (contract_pair_edge t brs br p v' Hc Hbr), edges_elem in Hin as [Hp Hrow].
    simpl. assert (v' ∉ root_ids t) as Hnr.
    { intros Hr%root_ids_elem. by rewrite (parent_unique t p (-1) v' Hwf Hnd Hrow Hr) in Hp. }
    split_and!; [|done|by destruct Hend].
    rewrite <- (rows_snd t Hwf). apply list_elem_of_fmap. by exists (p, v').
  - intros (Hv & Hnr & Hch).
    destruct (row_of_id t v Hwf Hv) as (p & Hrow).
    assert (p ≠ -1) as Hp.
    { intros ->. by apply Hnr, root_ids_elem. }
    destruct (contract_edge_pair t brs p v Hc) as (br & Hbr & Hin);
      [by apply edges_elem|].
    exists br. split; [done|].
    destruct (pair_child_position _ _ _ Hin) as [Hint|Hl]; [|done].
    pose proof (proj1 (Forall_forall _ _) Hok br Hbr) as (_ & Hone & _).
    by pose proof (proj1 (Forall_forall _ _) Hone v Hint).
Qed.

(** The first node of a branch is the root or the last node of a branch. *)
Lemma contract_firsts t brs lasts br v :
  valid_tree t → extractor_contract t brs →
  Forall2 (λ br v, last (branch_ids br) = Some v) brs lasts →
  br ∈ brs → head (branch_ids br) = Some v →
  v ∈ root_ids t ∨ v ∈ lasts.
Proof.
  intros Hvalid Hc Hlasts Hbr Hhead.
  pose proof Hvalid as (Hwf & Hnd & _ & _ & Hpar & _). pose proof Hc as [Hok _].
  pose proof (proj1 (Forall_forall _ _) Hok br Hbr) as (Hlen & _ & Hend & _).
  rewrite Hhead in Hend; simpl in Hend.
  destruct (decide (v ∈ root_ids t)) as [|Hnr]; [by left|right].
  destruct Hend as [?|Hch]; [done|].
  apply (contract_lasts_elem t brs lasts v Hvalid Hc Hlasts). split_and!; [|done..].
  destruct (branch_ids br) as [|a [|b l]] eqn:E; simpl in Hlen; try lia.
  injection Hhead as ->.
  assert ((v, b) ∈ edges t) as [Hv Hrow]%edges_elem.
  { apply (contract_pair_edge t brs br v b Hc Hbr). rewrite E. left. }
  pose proof (proj1 (Forall_forall _ _) Hpar (v, b) Hrow) as [?|?]; done.
Qed.

(** ** Python dicts *)

Lemma dict_get_None {V} k (d : dict V) : dict_get k d = None ↔ k ∉ dict_keys d.
Proof.
  induction d as [|[k' v] d IH]; simpl.
  - split; [intros _ ?%elem_of_nil; done|done].
  - case_decide as Hk.
    + subst. split; [done|]. intros H. destruct H. left.
    + rewrite IH, not_elem_of_cons. split; [by intros ?; split; [congruence|]|by intros [_ ?]].
Qed.

Lemma dict_get_app_None {V} k (d d' : dict V) :
  dict_get k d = None → dict_get k (d ++ d') = dict_get k d'.
Proof.
  induction d as [|[k' v] d IH]; simpl; [done|].
  case_decide; [done|]. apply IH.
Qed.

Lemma dict_get_app_Some {V} k (d d' : dict V) v :
  dict_get k d = Some v → dict_get k (d ++ d') = Some v.
Proof.
  induction d as [|[k' v'] d IH]; simpl; [done|].
  case_decide; [done|]. apply IH.
Qed.

Lemma dict_keys_alter {V} (f : V → V) k (d : dict V) :
  dict_keys (dict_alter f k d) = dict_keys d.
Proof.
  induction d as [|[k' v] d IH]; simpl; [done|].
  case_decide; simpl; [done|]. by rewrite IH.
Qed.

Lemma dict_get_alter {V} (f : V → V) k k' (d : dict V) :
  dict_get k' (dict_alter f k d) =
    if decide (k' = k) then f <$> dict_get k d else dict_get k' d.
Proof.
  induction d as [|[k0 v] d IH]; simpl; [by case_decide|].
  repeat (case_decide; simpl; subst); rewrite ?IH, ?decide_True, ?decide_False by done;
    try done; try congruence.
Qed.

Lemma dict_values_alter {V} k (b : V) (d : dict (list V)) :
  k ∈ dict_keys d →
  concat (dict_values (dict_alter (λ l, l ++ [b]) k d)) ≡ₚ b :: concat (dict_values d).
Proof.
  induction d as [|[k0 v] d IH]; simpl; [by intros ?%elem_of_nil|].
  intros Hin. case_decide as Hk; simpl.
  - rewrite <- (assoc_L (++)). simpl. by rewrite <- Permutation_middle.
  - apply elem_of_cons in Hin as [->|Hin]; [done|].
    rewrite (IH Hin). by rewrite <- Permutation_middle.
Qed.

Lemma dict_setdefault_get {V} k k' (v : V) (d : dict V) :
  dict_get k' (dict_setdefault k v d) =
    if decide (k' = k) then Some (default v (dict_get k d)) else dict_get k' d.
Proof.
  unfold dict_setdefault. destruct (dict_get k d) as [w|] eqn:E.
  - case_decide; [by subst|done].
  - case_decide as Hk.
    + subst. rewrite dict_get_app_None by done. simpl. by rewrite decide_True.
    + destruct (dict_get k' d) as [w|] eqn:E'.
      * by apply dict_get_app_Some.
      * rewrite dict_get_app_None by done. simpl. by rewrite decide_False.
Qed.

Lemma dict_setdefault_keys {V} k (v : V) (d : dict V) :
  NoDup (dict_keys d) →
  NoDup (dict_keys (dict_setdefault k v d)) ∧
  ∀ k', k' ∈ dict_keys (dict_setdefault k v d) ↔ k' = k ∨ k' ∈ dict_keys d.
Proof.
  intros Hnd. unfold dict_setdefault. destruct (dict_get k d) as [w|] eqn:E.
  - split; [done|]. intros k'. split; [by right|]. intros [->|?]; [|done].
    apply dec_stable. intros Hn%dict_get_None. congruence.
  - apply dict_get_None in E. unfold dict_keys in *. rewrite map_app. simpl. split.
    + apply NoDup_app. split_and!; [done| |apply NoDup_singleton].
      intros x Hx ->%list_elem_of_singleton. done.
    + intros k'. rewrite elem_of_app, list_elem_of_singleton. tauto.
Qed.

Lemma dict_file_get {V} k k' (b : V) (d : dict (list V)) :
  dict_get k' (dict_file k b d) =
    if decide (k' = k) then Some (default [] (dict_get k d) ++ [b]) else dict_get k' d.
Proof.
  unfold dict_file. rewrite dict_get_alter, !dict_setdefault_get.
  case_decide; [|done]. by rewrite decide_True.
Qed.

Lemma dict_file_keys {V} k (b : V) (d : dict (list V)) :
  NoDup (dict_keys d) →
  NoDup (dict_keys (dict_file k b d)) ∧
  ∀ k', k' ∈ dict_keys (dict_file k b d) ↔ k' = k ∨ k' ∈ dict_keys d.
Proof.
  intros Hnd. unfold dict_file. rewrite dict_keys_alter.
  by apply dict_setdefault_keys.
Qed.

Lemma dict_file_values {V} k (b : V) (d : dict (list V)) :
  concat (dict_values (dict_file k b d)) ≡ₚ b :: concat (dict_values d).
Proof.
  unfold dict_file. rewrite dict_values_alter.
  - unfold dict_setdefault. destruct (dict_get k d); [done|].
    unfold dict_values. rewrite map_app, concat_app. simpl. by rewrite app_nil_r.
  - unfold dict_setdefault. destruct (dict_get k d) eqn:E.
    + apply dec_stable. intros Hn%dict_get_None. congruence.
    + unfold dict_keys. rewrite map_app. apply elem_of_app. right. left.
Qed.

Lemma dict_append_setdefault {V} k (b : V) (d : dict (list V)) :
  dict_append k b (dict_setdefault k [] d) = Ok (dict_file k b d).
Proof.
  unfold dict_append. rewrite dict_setdefault_get, decide_True by done. done.
Qed.

Lemma sum_list_with_ext {A} (f g : A → nat) (l : list A) :
  (∀ x, x ∈ l → f x = g x) → sum_list_with f l = sum_list_with g l.
Proof.
  induction l as [|a l IH]; simpl; [done|]. intros H.
  rewrite (H a) by left. rewrite IH; [done|]. intros x Hx. apply H. by right.
Qed.

(** The attached lists summed over a duplicate-free list of node ids that
    has every key. *)
Lemma dict_sum_lengths {V} (d : dict (list V)) (l : list Z) :
  NoDup (dict_keys d) → NoDup l → (∀ k, k ∈ dict_keys d → k ∈ l) →
  sum_list_with (λ k, length (default [] (dict_get k d))) l
    = length (concat (dict_values d)).
Proof.
  revert l. induction d as [|[k v] d IH]; intros l Hd Hl Hsub; simpl.
  - clear. induction l as [|a l IHl]; simpl; [done|]. apply IHl.
  - apply NoDup_cons in Hd as [Hk Hd].
    assert (k ∈ l) as Hin by (apply Hsub; left).
    apply list_elem_of_split in Hin as (l1 & l2 & ->).
    assert (l1 ++ k :: l2 ≡ₚ k :: l1 ++ l2) as Hperm
      by (by rewrite <- Permutation_middle).
    rewrite Hperm in Hl. rewrite Hperm. apply NoDup_cons in Hl as [Hk' Hl].
    simpl. rewrite decide_True by done. simpl. rewrite length_app. f_equal.
    rewrite <- (IH (l1 ++ l2) Hd Hl).
    + apply sum_list_with_ext. intros x Hx. rewrite decide_False; [done|].
      by intros <-.
    + intros k0 Hk0. assert (k0 ∈ l1 ++ k :: l2) as Hin by (apply Hsub; by right).
      rewrite Hperm in Hin. apply elem_of_cons in Hin as [->|?]; done.
Qed.

(** ** The sub-tree builder and the reducer *)

Lemma rmapM_Forall2 {A B} (f : A → result B) l l' :
  rmapM f l = Ok l' ↔ Forall2 (λ a b, f a = Ok b) l l'.
Proof.
  revert l'. induction l as [|a l IH]; intros l'; simpl.
  - split; [intros [= <-]; constructor|by inversion 1].
  - destruct (f a) as [b|e] eqn:Ea; simpl.
    + destruct (rmapM f l) as [bs|e]; simpl.
      * split.
        -- intros [= <-]. constructor; [done|]. by apply IH.
        -- inversion 1 as [|???? Hb Hrest]; subst. apply IH in Hrest.
           congruence.
      * split; [done|]. inversion 1 as [|???? Hb Hrest]; subst.
        by apply IH in Hrest.
    + split; [done|]. inversion 1; congruence.
Qed.

Lemma rmapM_total {A B} (f : A → result B) l :
  Forall (λ a, ∃ b, f a = Ok b) l → ∃ l', rmapM f l = Ok l'.
Proof.
  induction 1 as [|a l [b Hb] _ [l' IH]]; simpl; [by eexists|].
  rewrite Hb, IH. simpl. by eexists.
Qed.

Lemma retained_spec brs :
  Forall (λ br, nodes br ≠ []) brs →
  ∃ lasts firsts,
    retained brs = Ok (0 :: lasts, -1 :: firsts) ∧
    Forall2 (λ br v, last (branch_ids br) = Some v) brs lasts ∧
    Forall2 (λ br v, head (branch_ids br) = Some v) brs firsts.
Proof.
  intros Hne. unfold retained.
  destruct (rmapM_total (λ br, rbind (Branch_last br) (λ n, Ok (Node.id n))) brs)
    as [lasts Hl].
  { eapply Forall_impl; [exact Hne|]. intros br Hbr. unfold Branch_last.
    destruct (last (nodes br)) as [n|] eqn:E; [by eexists|].
    by apply last_None in E. }
  destruct (rmapM_total (λ br, rbind (Branch_first br) (λ n, Ok (Node.id n))) brs)
    as [firsts Hf].
  { eapply Forall_impl; [exact Hne|]. intros br Hbr. unfold Branch_first.
    destruct (nodes br) as [|n ?] eqn:E; [done|]. by eexists. }
  exists lasts, firsts. unfold mbind, result_MBind. rewrite Hl, Hf. simpl.
  split; [done|]. split.
  - apply rmapM_Forall2 in Hl. eapply Forall2_impl; [exact Hl|].
    intros br v. unfold Branch_last, branch_ids. rewrite fmap_last.
    destruct (last (nodes br)); simpl; [by intros [= <-]|done].
  - apply rmapM_Forall2 in Hf. eapply Forall2_impl; [exact Hf|].
    intros br v. unfold Branch_first, branch_ids.
    destruct (nodes br); simpl; [done|by intros [= <-]].
Qed.

Lemma node_of_total (t : DictSWC) i :
  wf_table t → i ∈ nid t → is_Some (node_of t i).
Proof.
  intros (Hty & Hx & Hy & Hz & Hr & Hp) Hin. unfold node_of, index_of.
  destruct (list_find_elem_of (λ j, j = i) (nid t) i Hin eq_refl) as [[k j] Hfind].
  rewrite Hfind. simpl. apply list_find_Some in Hfind as (Hk & _ & _).
  pose proof (lookup_lt_Some _ _ _ Hk) as Hlt.
  unfold node_at. rewrite Hk. simpl.
  destruct (lookup_lt_is_Some_2 (ntype t) k) as [? ->]; [lia|].
  destruct (lookup_lt_is_Some_2 (nx t) k) as [? ->]; [lia|].
  destruct (lookup_lt_is_Some_2 (ny t) k) as [? ->]; [lia|].
  destruct (lookup_lt_is_Some_2 (nz t) k) as [? ->]; [lia|].
  destruct (lookup_lt_is_Some_2 (nr t) k) as [? ->]; [lia|].
  destruct (lookup_lt_is_Some_2 (npid t) k) as [? ->]; [lia|].
  simpl. by eexists.
Qed.

Lemma remap_dom sub_id v : is_Some (remap sub_id !! v) ↔ v ∈ sub_id.
Proof.
  unfold remap. rewrite <- elem_of_dom, dom_list_to_map_L, elem_of_list_to_set.
  rewrite fst_zip; [done|]. rewrite length_map, length_seq. lia.
Qed.

Lemma remap_range sub_id v k :
  remap sub_id !! v = Some k → k ∈ map Z.of_nat (seq 0 (length sub_id)).
Proof.
  unfold remap. intros H%elem_of_list_to_map_2. by apply elem_of_zip_r in H.
Qed.

Lemma remap_inj sub_id u v k :
  remap sub_id !! u = Some k → remap sub_id !! v = Some k → u = v.
Proof.
  unfold remap. intros Hu%elem_of_list_to_map_2 Hv%elem_of_list_to_map_2.
  eapply snd_functional; [|exact Hu|exact Hv].
  rewrite snd_zip.
  - apply (NoDup_fmap_2 Z.of_nat), NoDup_seq.
  - rewrite length_map, length_seq. lia.
Qed.

Lemma renumbered_ids (rows : list Node.t) (ids pids : list Z) :
  length rows = length ids → length pids = length ids →
  map Node.id
    (zip_with (λ (n : Node.t) (ip : Z * Z),
       Node.mk ip.1 (Node.type n) (Node.x n) (Node.y n) (Node.z n) (Node.r n) ip.2)
       rows (zip ids pids)) = ids.
Proof.
  revert rows pids. induction ids as [|i ids IH]; intros [|n rows] [|p pids];
    simpl; try done.
  intros [= Hr] [= Hp]. by rewrite IH.
Qed.

Lemma to_sub_tree_spec (t : DictSWC) sub_id sub_pid :
  wf_table t → length sub_pid = length sub_id →
  Forall (λ i, i ∈ nid t) sub_id →
  Forall (λ p, p = -1 ∨ p ∈ sub_id) sub_pid →
  ∃ sub_tree,
    to_sub_tree t sub_id sub_pid = Ok (sub_tree, remap sub_id) ∧
    source sub_tree = source t ∧
    nid sub_tree = map Z.of_nat (seq 0 (length sub_id)).
Proof.
  intros Hwf Hlen Hid Hpid. unfold to_sub_tree.
  destruct (rmapM_total (λ p, if p =? -1 then Ok (-1)
                              else of_option KeyError (remap sub_id !! p)) sub_pid)
    as [new_pid Hnp].
  { eapply Forall_impl; [exact Hpid|]. intros p Hp; simpl in Hp.
    destruct (Z.eqb_spec p (-1)); [by eexists|].
    destruct Hp as [?|Hin]; [done|].
    apply remap_dom in Hin as [k ->]. by eexists. }
  destruct (rmapM_total (λ i, of_option KeyError (node_of t i)) sub_id) as [rows Hrows].
  { eapply Forall_impl; [exact Hid|]. intros i Hi; simpl in Hi.
    destruct (node_of_total t i Hwf Hi) as [n ->]. by eexists. }
  unfold mbind, result_MBind. rewrite Hnp. simpl. rewrite Hrows. simpl.
  eexists. split; [reflexivity|]. simpl. split; [done|].
  apply rmapM_Forall2, Forall2_length in Hnp, Hrows.
  apply renumbered_ids; rewrite length_map, length_seq; lia.
Qed.

Lemma file_branches_spec id_map brs d :
  NoDup (dict_keys d) →
  Forall (λ br, is_Some (new_id_of_first id_map br)) brs →
  ∃ d', file_branches id_map brs d = Ok d' ∧
    NoDup (dict_keys d') ∧
    concat (dict_values d') ≡ₚ concat (dict_values d) ++ map detach brs ∧
    (∀ k, k ∈ dict_keys d' ↔
          k ∈ dict_keys d ∨ ∃ br, br ∈ brs ∧ new_id_of_first id_map br = Some k) ∧
    (∀ k, default [] (dict_get k d')
          = default [] (dict_get k d) ++ map detach (filed_under id_map k brs)).
Proof.
  intros Hd Hall. revert d Hd.
  induction Hall as [|br brs [idx Hidx] _ IH]; intros d Hd; simpl.
  - exists d. split_and!; try done.
    + by rewrite app_nil_r.
    + intros k. split; [by left|]. intros [?|(? & ?%elem_of_nil & _)]; done.
    + intros k. by rewrite app_nil_r.
  - unfold new_id_of_first in Hidx. unfold Branch_first.
    destruct (head (nodes br)) as [n|] eqn:Hn; [|done]. simpl in Hidx.
    unfold mbind, result_MBind. simpl. rewrite Hidx. simpl.
    rewrite dict_append_setdefault. simpl.
    destruct (dict_file_keys idx (detach br) d Hd) as [Hd2 Hk2].
    destruct (IH _ Hd2) as (d' & Hfile & Hd' & Hvals & Hkeys & Hget).
    exists d'. split_and!; try done.
    + rewrite Hvals, dict_file_values. simpl.
      by rewrite <- Permutation_middle.
    + intros k. rewrite Hkeys, Hk2. split.
      * intros [[->|?]|(br' & ? & ?)]; [right|by left|right].
        -- exists br. split; [left|]. unfold new_id_of_first. rewrite Hn. done.
        -- exists br'. split; [by right|done].
      * intros [?|(br' & [->|?]%elem_of_cons & Hbr')]; [by left; right| |right; eauto].
        left; left. unfold new_id_of_first in Hbr'. rewrite Hn in Hbr'. simpl in Hbr'.
        congruence.
    + intros k. rewrite Hget, dict_file_get. unfold filed_under. rewrite filter_cons.
      assert (new_id_of_first id_map br = Some idx) as Hnew.
      { unfold new_id_of_first. rewrite Hn. done. }
      destruct (decide (k = idx)) as [->|Hk].
      * rewrite decide_True by done. simpl. by rewrite <- (assoc_L (++)).
      * rewrite decide_False by congruence. done.
Qed.

(** What [from_tree] does on a valid tree whose root has the id 0, for an
    extractor that meets its contract. *)
Lemma from_tree_spec G (t : DictSWC) :
  valid_tree t → root_ids t = [0] → extractor_contract t (G t) →
  ∃ lasts firsts sub_tree d,
    Forall2 (λ br v, last (branch_ids br) = Some v) (G t) lasts ∧
    Forall2 (λ br v, head (branch_ids br) = Some v) (G t) firsts ∧
    retained (G t) = Ok (0 :: lasts, -1 :: firsts) ∧
    to_sub_tree t (0 :: lasts) (-1 :: firsts) = Ok (sub_tree, remap (0 :: lasts)) ∧
    nid sub_tree = map Z.of_nat (seq 0 (S (length lasts))) ∧
    file_branches (remap (0 :: lasts)) (G t) [] = Ok d ∧
    Forall (λ br, is_Some (new_id_of_first (remap (0 :: lasts)) br)) (G t) ∧
    NoDup (dict_keys d) ∧
    concat (dict_values d) ≡ₚ map detach (G t) ∧
    (∀ k, k ∈ dict_keys d ↔
          ∃ br, br ∈ G t ∧ new_id_of_first (remap (0 :: lasts)) br = Some k) ∧
    (∀ k, default [] (dict_get k d)
          = map detach (filed_under (remap (0 :: lasts)) k (G t))) ∧
    from_tree G t =
      Ok (mkBranchTree
            (mkDictSWC (source t) (nid sub_tree) (ntype sub_tree) (nx sub_tree)
               (ny sub_tree) (nz sub_tree) (nr sub_tree) (npid sub_tree)) d).
Proof.
  intros Hvalid Hroot Hc. pose proof Hvalid as (Hwf & Hnd & _).
  pose proof Hc as [Hok _].
  destruct (retained_spec (G t)) as (lasts & firsts & Hret & Hlasts & Hfirsts).
  { eapply Forall_impl; [exact Hok|]. intros br (Hlen & _) Hnil.
    unfold branch_ids in Hlen. rewrite Hnil in Hlen. simpl in Hlen. lia. }
  assert (0 ∈ nid t) as H0.
  { rewrite <- (rows_snd t Hwf). apply list_elem_of_fmap. exists (-1, 0).
    split; [done|]. apply root_ids_elem. rewrite Hroot. left. }
  assert (∀ br v, br ∈ G t → head (branch_ids br) = Some v → v ∈ 0 :: lasts) as Hfst.
  { intros br v Hbr Hv.
    destruct (contract_firsts t (G t) lasts br v Hvalid Hc Hlasts Hbr Hv) as [Hr|Hl].
    - rewrite Hroot in Hr. apply list_elem_of_singleton in Hr as ->. left.
    - by right. }
  destruct (to_sub_tree_spec t (0 :: lasts) (-1 :: firsts) Hwf)
    as (sub_tree & Hsub & _ & Hnid).
  { simpl. f_equal. apply Forall2_length in Hlasts, Hfirsts. lia. }
  { constructor; [done|]. apply Forall_forall. intros v Hv.
    by apply (contract_lasts_elem t (G t) lasts v Hvalid Hc Hlasts) in Hv as (? & _). }
  { constructor; [by left|]. apply Forall_forall. intros v Hv. right.
    clear -Hfirsts Hfst Hv. induction Hfirsts as [|br w brs fs Hw _ IH].
    - by apply elem_of_nil in Hv.
    - apply elem_of_cons in Hv as [->|Hv].
      + apply (Hfst br w); [left|done].
      + apply IH; [|done]. intros br' v' ? ?. apply (Hfst br' v'); [by right|done]. }
  assert (Forall (λ br, is_Some (new_id_of_first (remap (0 :: lasts)) br)) (G t))
    as Hall.
  { apply Forall_forall. intros br Hbr.
    destruct (proj1 (Forall_forall _ _) Hok br Hbr) as (Hlen & _).
    unfold new_id_of_first, branch_ids in *.
    destruct (nodes br) as [|n ns] eqn:E; [simpl in Hlen; lia|]. simpl.
    apply remap_dom, (Hfst br); [done|]. unfold branch_ids. by rewrite E. }
  destruct (file_branches_spec (remap (0 :: lasts)) (G t) [])
    as (d & Hfile & Hd & Hvals & Hkeys & Hget); [constructor|done|].
  exists lasts, firsts, sub_tree, d. split_and!; try done.
  { intros k. rewrite Hkeys. split; [|by right].
    intros [?%elem_of_nil|?]; done. }
  unfold from_tree. rewrite Hret. unfold mbind, result_MBind. simpl rbind.
  rewrite Hsub. simpl rbind. rewrite Hfile. done.
Qed.

Lemma zero_is_root_node (t : DictSWC) :
  valid_tree t → root_ids t = [0] → 0 ∈ nid t ∧ ∀ v, v ∈ root_ids t ↔ v = 0.
Proof.
  intros (Hwf & _) Hroot. split.
  - rewrite <- (rows_snd t Hwf). apply list_elem_of_fmap. exists (-1, 0).
    split; [done|]. apply root_ids_elem. rewrite Hroot. left.
  - intros v. rewrite Hroot. apply list_elem_of_singleton.
Qed.

Lemma retained_ids_set (t : DictSWC) brs lasts :
  valid_tree t → root_ids t = [0] → extractor_contract t brs →
  Forall2 (λ br v, last (branch_ids br) = Some v) brs lasts →
  NoDup (0 :: lasts) ∧
  list_to_set (0 :: lasts)
    =@{gset Z} {[0]} ∪ list_to_set (branching_nodes t) ∪ list_to_set (tip_nodes t).
Proof.
  intros Hvalid Hroot Hc Hlasts.
  destruct (zero_is_root_node t Hvalid Hroot) as [H0 Hr].
  pose proof (contract_lasts_elem t brs lasts) as Hel.
  split.
  - constructor; [|by eapply contract_lasts_NoDup].
    intros (_ & Hn & _)%Hel; [|done..]. by apply Hn, Hr.
  - apply set_eq. intros v.
    rewrite list_to_set_cons, !elem_of_union, !elem_of_list_to_set, elem_of_singleton.
    unfold branching_nodes, tip_nodes. rewrite !list_elem_of_filter, Hel by done.
    rewrite Hr. destruct (decide (v = 0)) as [->|Hv]; [tauto|].
    split.
    + intros [?|(? & _ & Hch)]; [done|].
      destruct (n_children t v) as [|[|n]] eqn:E; [right; done|done|].
      left; right. split; [lia|done].
    + intros [[?|[Hch ?]]|[Hch ?]]; [done|right|right]; split_and!; try done; lia.
Qed.

(** C3, as the code has it: the retained id list handed to [to_sub_tree] is
    the literal id 0 followed by the last node id of every branch, and the
    parent list is -1 followed by the first node id of every branch, so that
    0 is paired with -1 and the last id of each branch with the first id of
    the same branch.  The first ids are not added to the retained list; when
    the root of a valid tree has the id 0, the retained ids are nevertheless,
    as a set, the root id with the first and last ids of all branches. *)
Theorem retained_lists (t : DictSWC) (brs : list Branch) :
  valid_tree t → extractor_contract t brs →
  ∃ lasts firsts,
    retained brs = Ok (0 :: lasts, -1 :: firsts) ∧
    (∀ i br, brs !! i = Some br →
       (0 :: lasts) !! S i = last (branch_ids br) ∧
       (-1 :: firsts) !! S i = head (branch_ids br) ∧
       is_Some (last (branch_ids br)) ∧ is_Some (head (branch_ids br))) ∧
    length lasts = length brs ∧ length firsts = length brs ∧
    (root_ids t = [0] →
       list_to_set (0 :: lasts)
         =@{gset Z} list_to_set (root_ids t) ∪ list_to_set firsts ∪ list_to_set lasts).
Proof.
  intros Hvalid Hc. pose proof Hc as [Hok _].
  destruct (retained_spec brs) as (lasts & firsts & Hret & Hlasts & Hfirsts).
  { eapply Forall_impl; [exact Hok|]. intros br (Hlen & _) Hnil.
    unfold branch_ids in Hlen. rewrite Hnil in Hlen. simpl in Hlen. lia. }
  exists lasts, firsts. split_and!; try done.
  - intros i br Hbr. simpl.
    destruct (Forall2_lookup_l _ _ _ _ _ Hlasts Hbr) as (v & -> & ->).
    destruct (Forall2_lookup_l _ _ _ _ _ Hfirsts Hbr) as (w & -> & ->).
    split_and!; by eauto.
  - symmetry. by eapply Forall2_length.
  - symmetry. by eapply Forall2_length.
  - intros Hroot. rewrite Hroot. apply set_eq. intros v.
    rewrite list_to_set_cons, !elem_of_union, !elem_of_list_to_set.
    rewrite list_elem_of_singleton, elem_of_singleton.
    split; [intros [?|?]; auto|]. intros [[?|Hv]|?]; auto.
    apply list_elem_of_lookup in Hv as [i Hi].
    destruct (Forall2_lookup_r _ _ _ _ _ Hfirsts Hi) as (br & Hbr & Hhd).
    apply list_elem_of_lookup_2 in Hbr.
    destruct (contract_firsts t brs lasts br v Hvalid Hc Hlasts Hbr Hhd) as [Hr|?];
      [left|by right].
    rewrite Hroot in Hr. by apply list_elem_of_singleton in Hr.
Qed.

Lemma retained_lists_witness :
  retained (extract_branches fork5) = Ok ([0; 2; 3; 4], [-1; 0; 2; 2]) ∧
  list_to_set [0; 2; 3; 4] =@{gset Z} {[0]} ∪ list_to_set [0; 2; 2] ∪ list_to_set [2; 3; 4].
Proof.
  destruct (retained_lists fork5 (extract_branches fork5))
    as (lasts & firsts & Hret & _ & _ & _ & Hset);
    [compute_done | compute_done |].
  vm_compute in Hret. injection Hret as <- <-.
  split; [reflexivity|]. apply Hset. reflexivity.
Defined.

(** C3 as stated fails: for a root with the id 5 the retained list holds 0,
    not 5. *)
Lemma retained_root_id_is_literal_zero :
  valid_tree root5 ∧ extractor_contract root5 (extract_branches root5) ∧
  root_ids root5 = [5] ∧
  map branch_ids (extract_branches root5) = [[5; 6]] ∧
  retained (extract_branches root5) = Ok ([0; 6], [-1; 5]) ∧
  (list_to_set [0; 6] : gset Z) ≠ {[5]} ∪ {[5]} ∪ {[6]}.
Proof.
  split_and!; [compute_done|compute_done|reflexivity..|].
  intros H. assert (5 ∈ (list_to_set [0; 6] : gset Z)) as Hin by (rewrite H; set_solver).
  set_solver.
Qed.

(** ** What a successful [from_tree] has done *)

Lemma retained_inv brs sub_id sub_pid :
  retained brs = Ok (sub_id, sub_pid) →
  ∃ lasts firsts,
    sub_id = 0 :: lasts ∧ sub_pid = -1 :: firsts ∧
    length lasts = length brs ∧ length firsts = length brs.
Proof.
  unfold retained, mbind, result_MBind.
  destruct (rmapM _ brs) as [lasts|] eqn:Hl; simpl; [|done].
  destruct (rmapM _ brs) as [firsts|] eqn:Hf in |- *; simpl; [|done].
  intros [= Ha Hb]; subst. exists lasts, firsts.
  apply rmapM_Forall2, Forall2_length in Hl, Hf. done.
Qed.

Lemma to_sub_tree_inv (t : DictSWC) sub_id sub_pid sub_tree id_map :
  to_sub_tree t sub_id sub_pid = Ok (sub_tree, id_map) →
  length sub_pid = length sub_id →
  id_map = remap sub_id ∧ nid sub_tree = map Z.of_nat (seq 0 (length sub_id)).
Proof.
  unfold to_sub_tree, mbind, result_MBind.
  destruct (rmapM _ sub_pid) as [new_pid|] eqn:Hnp; simpl; [|done].
  destruct (rmapM _ sub_id) as [rows|] eqn:Hrows; simpl; [|done].
  intros [= Ha Hb] Hlen; subst. split; [done|]. simpl.
  apply rmapM_Forall2, Forall2_length in Hnp, Hrows.
  apply renumbered_ids; rewrite length_map, length_seq; lia.
Qed.

Lemma file_branches_inv id_map brs d d' :
  file_branches id_map brs d = Ok d' →
  Forall (λ br, is_Some (new_id_of_first id_map br)) brs.
Proof.
  revert d. induction brs as [|br brs IH]; intros d; simpl; [constructor|].
  unfold mbind, result_MBind, Branch_first.
  destruct (head (nodes br)) as [n|] eqn:Hn; simpl; [|done].
  destruct (id_map !! Node.id n) as [idx|] eqn:Hidx; simpl; [|done].
  rewrite dict_append_setdefault. simpl. intros Hrest.
  constructor; [|by eapply IH].
  unfold new_id_of_first. rewrite Hn. simpl. by rewrite Hidx.
Qed.

Lemma from_tree_inv G (t : DictSWC) bt :
  from_tree G t = Ok bt →
  ∃ lasts firsts,
    retained (G t) = Ok (0 :: lasts, -1 :: firsts) ∧
    length lasts = length (G t) ∧
    nid (tree_of bt) = map Z.of_nat (seq 0 (S (length lasts))) ∧
    source (tree_of bt) = source t ∧
    Forall (λ br, is_Some (new_id_of_first (remap (0 :: lasts)) br)) (G t) ∧
    NoDup (dict_keys (branches bt)) ∧
    concat (dict_values (branches bt)) ≡ₚ map detach (G t) ∧
    (∀ k, k ∈ dict_keys (branches bt) ↔
          ∃ br, br ∈ G t ∧ new_id_of_first (remap (0 :: lasts)) br = Some k) ∧
    (∀ k, default [] (dict_get k (branches bt))
          = map detach (filed_under (remap (0 :: lasts)) k (G t))).
Proof.
  unfold from_tree. unfold mbind at 1 2 3. unfold result_MBind.
  destruct (retained (G t)) as [[sub_id sub_pid]|] eqn:Hret; simpl; [|done].
  destruct (retained_inv _ _ _ Hret) as (lasts & firsts & -> & -> & Hll & Hlf).
  destruct (to_sub_tree t (0 :: lasts) (-1 :: firsts)) as [[sub_tree id_map]|] eqn:Hsub;
    simpl; [|done].
  destruct (to_sub_tree_inv _ _ _ _ _ Hsub) as [-> Hnid]; [simpl; lia|].
  destruct (file_branches (remap (0 :: lasts)) (G t) []) as [d|] eqn:Hfile; simpl; [|done].
  intros [= <-]. simpl.
  pose proof (file_branches_inv _ _ _ _ Hfile) as Hall.
  destruct (file_branches_spec (remap (0 :: lasts)) (G t) [])
    as (d' & Hfile' & Hd & Hvals & Hkeys & Hget); [constructor|done|].
  rewrite Hfile in Hfile'. injection Hfile' as <-.
  exists lasts, firsts. split_and!; try done.
  intros k. rewrite Hkeys. split; [|by right].
  intros [?%elem_of_nil|?]; done.
Qed.

(** C5, as the code has it: whenever [from_tree] returns, the reduced tree
    has 1 + (number of branches) nodes.  On a valid tree whose root has the
    id 0, with an extractor that meets its contract, it returns; the
    retained ids are, without repetition, exactly {root} ∪ {branching nodes}
    ∪ {tips}; and the node count is 1 + #branching + #tips only when the
    root has exactly one child (otherwise the root is itself a branching node
    or a tip and the count is one less). *)
Theorem reduced_node_count G (t : DictSWC) :
  (∀ bt, from_tree G t = Ok bt →
     number_of_nodes (tree_of bt) = S (length (G t))) ∧
  (valid_tree t → root_ids t = [0] → extractor_contract t (G t) →
   ∃ bt sub_id sub_pid,
     from_tree G t = Ok bt ∧ retained (G t) = Ok (sub_id, sub_pid) ∧
     number_of_nodes (tree_of bt) = length sub_id ∧
     number_of_nodes (tree_of bt) = S (length (G t)) ∧
     NoDup sub_id ∧
     list_to_set sub_id
       =@{gset Z} {[0]} ∪ list_to_set (branching_nodes t) ∪ list_to_set (tip_nodes t) ∧
     (number_of_nodes (tree_of bt) + (if decide (n_children t 0 = 1%nat) then 0 else 1)
      = 1 + length (branching_nodes t) + length (tip_nodes t))%nat).
Proof.
  split.
  { intros bt Hfrom.
    destruct (from_tree_inv G t bt Hfrom) as (lasts & firsts & _ & Hll & Hnid & _).
    unfold number_of_nodes. by rewrite Hnid, length_map, length_seq, Hll. }
  intros Hvalid Hroot Hc.
  destruct (from_tree_spec G t Hvalid Hroot Hc)
    as (lasts & firsts & sub_tree & d & Hlasts & Hfirsts & Hret & _ & Hnid & _ &
        _ & _ & _ & _ & _ & Hfrom).
  destruct (retained_ids_set t (G t) lasts Hvalid Hroot Hc Hlasts) as [Hnd Hset].
  destruct (zero_is_root_node t Hvalid Hroot) as [H0 _].
  pose proof Hvalid as (_ & Hids & _).
  assert (number_of_nodes (mkDictSWC (source t) (nid sub_tree) (ntype sub_tree)
            (nx sub_tree) (ny sub_tree) (nz sub_tree) (nr sub_tree) (npid sub_tree))
          = length (0 :: lasts)) as Hn.
  { unfold number_of_nodes; simpl. by rewrite Hnid, length_map, length_seq. }
  eexists _, (0 :: lasts), (-1 :: firsts). split; [exact Hfrom|].
  split_and!; try done.
  - simpl tree_of. rewrite Hn. simpl. f_equal. symmetry. by eapply Forall2_length.
  - simpl tree_of. rewrite Hn, <- (size_list_to_set (C := gset Z)) by done.
    rewrite Hset.
    assert (list_to_set (branching_nodes t) ## (list_to_set (tip_nodes t) : gset Z))
      as Hdisj.
    { apply elem_of_disjoint. intros v.
      rewrite !elem_of_list_to_set. unfold branching_nodes, tip_nodes.
      rewrite !list_elem_of_filter. lia. }
    assert (size (list_to_set (branching_nodes t) ∪ list_to_set (tip_nodes t) : gset Z)
            = (length (branching_nodes t) + length (tip_nodes t))%nat) as Hsz.
    { rewrite size_union by done.
      rewrite !size_list_to_set; [done|by apply NoDup_filter..]. }
    rewrite <- (assoc_L (∪)). case_decide as Hch.
    + rewrite size_union, size_singleton, Hsz; [lia|].
      apply disjoint_singleton_l. rewrite elem_of_union, !elem_of_list_to_set.
      unfold branching_nodes, tip_nodes. rewrite !list_elem_of_filter. lia.
    + rewrite (subseteq_union_1_L {[0]}), Hsz; [lia|].
      apply singleton_subseteq_l. rewrite elem_of_union, !elem_of_list_to_set.
      unfold branching_nodes, tip_nodes. rewrite !list_elem_of_filter.
      destruct (n_children t 0) as [|[|n]]; [by right|done|left; split; [lia|done]].
Qed.

Lemma first_node_id (br : Branch) n :
  head (nodes br) = Some n → head (branch_ids br) = Some (Node.id n).
Proof. unfold branch_ids. destruct (nodes br); simpl; [done|]. by intros [= ->]. Qed.

Lemma branch_ids_in_tree (t : DictSWC) brs br :
  valid_tree t → extractor_contract t brs → br ∈ brs →
  Forall (λ v, v ∈ nid t) (branch_ids br).
Proof.
  intros Hvalid Hc Hbr. pose proof Hvalid as (Hwf & _ & _ & _ & Hpar & _).
  pose proof Hc as [Hok _].
  destruct (proj1 (Forall_forall _ _) Hok br Hbr) as (Hlen & _).
  assert (∀ p v, (p, v) ∈ pairs (branch_ids br) → p ∈ nid t ∧ v ∈ nid t) as Hpair.
  { intros p v [Hp Hrow]%(contract_pair_edge t brs br p v Hc Hbr)%edges_elem. split.
    - by destruct (proj1 (Forall_forall _ _) Hpar (p, v) Hrow).
    - rewrite <- (rows_snd t Hwf). apply list_elem_of_fmap. by exists (p, v). }
  destruct (branch_ids br) as [|a [|b l]]; simpl in Hlen; try lia.
  clear Hlen. unfold pairs in Hpair. simpl in Hpair.
  constructor; [apply (Hpair a b); left|].
  revert a b Hpair. induction l as [|c l IH]; intros a b Hpair.
  - constructor; [apply (Hpair a b); left|constructor].
  - constructor; [apply (Hpair a b); left|].
    apply (IH b c). intros p v Hin. apply Hpair. by right.
Qed.

(** What [get_node_branches] finds, whenever [from_tree] has returned. *)
Lemma lookup_formula G (t : DictSWC) bt lasts :
  (∀ k, k ∈ dict_keys (branches bt) ↔
        ∃ br, br ∈ G t ∧ new_id_of_first (remap (0 :: lasts)) br = Some k) →
  (∀ k, default [] (dict_get k (branches bt))
        = map detach (filed_under (remap (0 :: lasts)) k (G t))) →
  ∀ k, get_node_branches bt k =
       match filed_under (remap (0 :: lasts)) k (G t) with
       | [] => Raise KeyError
       | brs => Ok (map detach brs)
       end.
Proof.
  intros Hkeys Hget k. unfold get_node_branches. specialize (Hget k).
  destruct (filed_under (remap (0 :: lasts)) k (G t)) as [|br brs] eqn:Ef.
  - destruct (dict_get k (branches bt)) as [l|] eqn:Ek; [|done].
    assert (k ∈ dict_keys (branches bt)) as (br & Hbr & Hk)%Hkeys.
    { apply dec_stable. intros Hn%dict_get_None. congruence. }
    assert (br ∈ filed_under (remap (0 :: lasts)) k (G t)) as Hin
      by (by apply list_elem_of_filter).
    rewrite Ef in Hin. by apply elem_of_nil in Hin.
  - destruct (dict_get k (branches bt)) as [l|] eqn:Ek; simpl in Hget;
      [by rewrite Hget|done].
Qed.

(** C6, as the code has it: whenever [from_tree] returns a branch tree (it
    does on every valid tree whose root has the id 0, for an extractor that
    meets its contract), the lists attached to the nodes of the reduced tree,
    read from the dict with the empty list where a node has no entry
    ([get_node_branches] raises there), sum up to the length of
    [get_branches()], which is the number of extracted branches;
    [get_branches()] is the extracted branches, each once and detached;
    every branch is filed under the new id of its first node; and detaching
    keeps the node ids of a branch, which are ids of the source tree. *)
Theorem branch_count_conservation G (t : DictSWC) :
  (valid_tree t → root_ids t = [0] → extractor_contract t (G t) →
     (∃ bt, from_tree G t = Ok bt) ∧
     ∀ br, br ∈ G t → Forall (λ v, v ∈ nid t) (branch_ids br)) ∧
  (∀ bt, from_tree G t = Ok bt →
     ∃ sub_id sub_pid,
       retained (G t) = Ok (sub_id, sub_pid) ∧
       sum_list_with (λ k, length (default [] (dict_get k (branches bt))))
         (nid (tree_of bt)) = length (get_branches bt) ∧
       length (get_branches bt) = length (G t) ∧
       get_branches bt ≡ₚ map detach (G t) ∧
       (∀ k, default [] (dict_get k (branches bt))
             = map detach (filed_under (remap sub_id) k (G t))) ∧
       (∀ br, br ∈ G t →
          ∃ n k, Branch_first br = Ok n ∧ remap sub_id !! Node.id n = Some k ∧
                 k ∈ nid (tree_of bt) ∧
                 detach br ∈ default [] (dict_get k (branches bt)))) ∧
  (∀ br, branch_ids (detach br) = branch_ids br ∧ attach (detach br) = None).
Proof.
  split_and!.
  - intros Hvalid Hroot Hc.
    destruct (from_tree_spec G t Hvalid Hroot Hc)
      as (? & ? & ? & ? & _ & _ & _ & _ & _ & _ & _ & _ & _ & _ & _ & Hfrom).
    split; [by eexists|]. intros br Hbr. by eapply branch_ids_in_tree.
  - intros bt Hfrom.
    destruct (from_tree_inv G t bt Hfrom)
      as (lasts & firsts & Hret & Hll & Hnid & _ & Hall & Hd & Hvals & Hkeys & Hget).
    exists (0 :: lasts), (-1 :: firsts). unfold get_branches.
    split_and!; try done.
    + apply dict_sum_lengths; [done| |].
      * rewrite Hnid. apply (NoDup_fmap_2 Z.of_nat), NoDup_seq.
      * intros k (br & _ & Hbr)%Hkeys. rewrite Hnid. unfold new_id_of_first in Hbr.
        destruct (head (nodes br)) as [n|]; [|done]. simpl in Hbr.
        by apply remap_range in Hbr.
    + by rewrite Hvals, length_map.
    + intros br Hbr.
      destruct (proj1 (Forall_forall _ _) Hall br Hbr) as [k Hk].
      pose proof Hk as Hk'. unfold new_id_of_first in Hk.
      destruct (head (nodes br)) as [n|] eqn:Hn; [|done]. simpl in Hk.
      exists n, k. unfold Branch_first. rewrite Hn. split_and!; try done.
      * rewrite Hnid. by apply remap_range in Hk.
      * rewrite Hget. apply list_elem_of_fmap. exists br. split; [done|].
        unfold filed_under. by apply list_elem_of_filter.
  - done.
Qed.

Lemma branch_count_conservation_witness :
  ∃ bt, from_tree extract_branches fork5 = Ok bt ∧
        length (get_branches bt) = 3%nat ∧
        sum_list_with (λ k, length (default [] (dict_get k (branches bt))))
          (nid (tree_of bt)) = 3%nat ∧
        map branch_ids (get_branches bt) = [[0; 1; 2]; [2; 3]; [2; 4]].
Proof.
  destruct (branch_count_conservation extract_branches fork5)
    as (Htotal & Hprop & _).
  destruct Htotal as [[bt Hfrom] _]; [compute_done | reflexivity | compute_done |].
  destruct (Hprop bt Hfrom) as (sub_id & sub_pid & _ & Hsum & Hlen & _).
  exists bt. split; [exact Hfrom|]. split; [exact Hlen|].
  split; [by rewrite Hsum, Hlen|].
  vm_compute in Hfrom. injection Hfrom as <-. reflexivity.
Defined.

(** C6 as stated fails: the tree [root5] is valid and has one branch, and
    [from_tree] raises on it, so it has no reduced tree whose lists could be
    summed; and on the chain, whose root has the id 0, the sum as the spec
    writes it, [len(get_node_branches(n))] over the retained nodes, raises
    at the tip. *)
Lemma no_branch_tree_to_sum_over :
  (valid_tree root5 ∧ extractor_contract root5 (extract_branches root5) ∧
   length (extract_branches root5) = 1%nat ∧
   from_tree extract_branches root5 = Raise KeyError) ∧
  (valid_tree chain3 ∧ extractor_contract chain3 (extract_branches chain3) ∧
   ∃ bt, from_tree extract_branches chain3 = Ok bt ∧
         length (get_branches bt) = 1%nat ∧
         rmapM (λ n, rbind (get_node_branches bt n) (λ l, Ok (length l)))
           (nid (tree_of bt)) = Raise KeyError).
Proof.
  split.
  - split; [compute_done|]. split; [compute_done|]. split; reflexivity.
  - split; [compute_done|]. split; [compute_done|].
    eexists. split; [vm_compute; reflexivity|]. split; reflexivity.
Qed.

(** C7, as the code has it: whenever [from_tree] has returned,
    [get_node_branches(k)] returns the non-empty list of the branches whose
    first node has the new id [k], and raises [KeyError] for every other
    [k]: an id that is no node of the reduced tree, and also, on a valid tree
    whose root has the id 0, the new id of every tip of the source tree,
    which is a retained node with no list. *)
Theorem get_node_branches_lookup G (t : DictSWC) :
  (∀ bt, from_tree G t = Ok bt →
     ∃ sub_id sub_pid,
       retained (G t) = Ok (sub_id, sub_pid) ∧
       (∀ k, get_node_branches bt k =
             match filed_under (remap sub_id) k (G t) with
             | [] => Raise KeyError
             | brs => Ok (map detach brs)
             end) ∧
       (∀ k, k ∉ nid (tree_of bt) → get_node_branches bt k = Raise KeyError)) ∧
  (valid_tree t → root_ids t = [0] → extractor_contract t (G t) →
     ∃ bt sub_id sub_pid,
       from_tree G t = Ok bt ∧ retained (G t) = Ok (sub_id, sub_pid) ∧
       ∀ v, v ∈ tip_nodes t →
            ∃ k, remap sub_id !! v = Some k ∧ k ∈ nid (tree_of bt) ∧
                 get_node_branches bt k = Raise KeyError).
Proof.
  split.
  - intros bt Hfrom.
    destruct (from_tree_inv G t bt Hfrom)
      as (lasts & firsts & Hret & Hll & Hnid & _ & Hall & Hd & Hvals & Hkeys & Hget).
    exists (0 :: lasts), (-1 :: firsts). split_and!; [done|by apply lookup_formula|].
    intros k Hk. rewrite (lookup_formula G t bt lasts Hkeys Hget).
    destruct (filed_under (remap (0 :: lasts)) k (G t)) as [|br brs] eqn:Ef; [done|].
    destruct Hk. rewrite Hnid.
    assert (br ∈ filed_under (remap (0 :: lasts)) k (G t)) as Hin by (rewrite Ef; left).
    apply list_elem_of_filter in Hin as [Hbr _]. unfold new_id_of_first in Hbr.
    destruct (head (nodes br)) as [n|]; [|done]. simpl in Hbr.
    by apply remap_range in Hbr.
  - intros Hvalid Hroot Hc.
    destruct (from_tree_spec G t Hvalid Hroot Hc)
      as (lasts0 & ? & ? & ? & Hlasts0 & _ & Hret0 & _ & _ & _ & _ & _ & _ & _ & _ & Hfrom).
    destruct (from_tree_inv G t _ Hfrom)
      as (lasts & firsts & Hret & Hll & Hnid & _ & Hall & Hd & Hvals & Hkeys & Hget).
    assert (lasts0 = lasts) as -> by congruence. rename Hlasts0 into Hlasts.
    pose proof Hvalid as (Hwf & Hnd & _).
    destruct (zero_is_root_node t Hvalid Hroot) as [H0 Hr].
    eexists _, (0 :: lasts), (-1 :: firsts). split; [exact Hfrom|]. split; [done|].
    intros v Hv. unfold tip_nodes in Hv. apply list_elem_of_filter in Hv as [Hch Hv].
    assert (v ∈ 0 :: lasts) as Hin.
    { destruct (decide (v = 0)) as [->|Hne]; [left|right].
      apply (contract_lasts_elem t (G t) lasts v Hvalid Hc Hlasts).
      split_and!; [done| |lia]. by rewrite Hr. }
    apply remap_dom in Hin as [k Hk]. exists k. split; [done|]. split.
    { rewrite Hnid. by apply remap_range in Hk. }
    rewrite (lookup_formula G t _ lasts Hkeys Hget).
    destruct (filed_under (remap (0 :: lasts)) k (G t)) as [|br brs] eqn:Ef; [done|].
    exfalso.
    assert (br ∈ filed_under (remap (0 :: lasts)) k (G t)) as Hbr by (rewrite Ef; left).
    apply list_elem_of_filter in Hbr as [Hnew Hbr]. unfold new_id_of_first in Hnew.
    destruct (head (nodes br)) as [n|] eqn:Hn; [|done]. simpl in Hnew.
    pose proof (remap_inj _ _ _ _ Hnew Hk) as Hid.
    apply first_node_id in Hn. rewrite Hid in Hn.
    pose proof Hc as [Hok _].
    destruct (proj1 (Forall_forall _ _) Hok br Hbr) as (Hlen & _).
    destruct (branch_ids br) as [|a [|b l]] eqn:E; simpl in Hlen; try lia.
    injection Hn as ->.
    assert ((v, b) ∈ edges t) as [_ Hrow]%edges_elem.
    { apply (contract_pair_edge t (G t) br v b Hc Hbr). rewrite E. left. }
    apply elem_of_zip_l in Hrow. unfold n_children in Hch.
    assert (v ∈ filter (λ p, p = v) (npid t)) as Hf by (by apply list_elem_of_filter).
    destruct (filter (λ p, p = v) (npid t)); [by apply elem_of_nil in Hf|done].
Qed.

Lemma get_node_branches_lookup_witness :
  ∃ bt, from_tree extract_branches fork5 = Ok bt ∧
        nid (tree_of bt) = [0; 1; 2; 3] ∧
        (∃ l, get_node_branches bt 1 = Ok l ∧
              map branch_ids l = [[2; 3]; [2; 4]]) ∧
        (∃ k, remap [0; 2; 3; 4] !! 3 = Some k ∧
              get_node_branches bt k = Raise KeyError) ∧
        get_node_branches bt 7 = Raise KeyError.
Proof.
  destruct (get_node_branches_lookup extract_branches fork5) as [Hgen Htips].
  destruct Htips as (bt & sub_id & sub_pid & Hfrom & Hret & Htip);
    [compute_done | reflexivity | compute_done |].
  destruct (Hgen bt Hfrom) as (sub_id' & sub_pid' & Hret' & Hlook & _).
  vm_compute in Hret, Hret'. injection Hret as <- <-. injection Hret' as <- <-.
  destruct (Htip 3) as (k & Hk & _ & Hraise); [compute_done|].
  exists bt. split; [exact Hfrom|]. rewrite !Hlook.
  split_and!; [|by eexists|by exists k|reflexivity].
  vm_compute in Hfrom. injection Hfrom as <-. reflexivity.
Defined.

(** C7 as stated fails: node 1 of the reduced chain, the tip, is a retained
    node, and its lookup raises. *)
Lemma tip_lookup_raises :
  valid_tree chain3 ∧ extractor_contract chain3 (extract_branches chain3) ∧
  ∃ bt, from_tree extract_branches chain3 = Ok bt ∧
        nid (tree_of bt) = [0; 1] ∧ remap [0; 2] !! 2 = Some 1 ∧
        1 ∈ nid (tree_of bt) ∧
        get_node_branches bt 1 = Raise KeyError.
Proof.
  split; [compute_done|]. split; [compute_done|].
  eexists. split; [vm_compute; reflexivity|].
  split_and!; [reflexivity|reflexivity|set_solver|reflexivity].
Qed.

(** C5 as stated fails: a root with two tips is reduced to 3 nodes, and
    1 + #branching + #tips is 4. *)
Lemma forked_root_counted_twice :
  valid_tree fork3 ∧ extractor_contract fork3 (extract_branches fork3) ∧
  branching_nodes fork3 = [0] ∧ tip_nodes fork3 = [1; 2] ∧
  ∃ bt, from_tree extract_branches fork3 = Ok bt ∧
        number_of_nodes (tree_of bt) = 3%nat ∧
        number_of_nodes (tree_of bt)
          ≠ (1 + length (branching_nodes fork3) + length (tip_nodes fork3))%nat.
Proof.
  split; [compute_done|]. split; [compute_done|].
  split; [reflexivity|]. split; [reflexivity|].
  eexists. split; [vm_compute; reflexivity|]. split; [reflexivity|].
  vm_compute. lia.
Qed.

Lemma reduced_node_count_witness :
  ∃ bt, from_tree extract_branches fork5 = Ok bt ∧
        number_of_nodes (tree_of bt) = 4%nat ∧
        (4 + 0 = 1 + length (branching_nodes fork5) + length (tip_nodes fork5))%nat.
Proof.
  destruct (reduced_node_count extract_branches fork5) as [_ Htotal].
  destruct Htotal as (bt & sub_id & sub_pid & Hfrom & _ & _ & Hn & _ & _ & Hcount);
    [compute_done | reflexivity | compute_done |].
  exists bt. split; [exact Hfrom|]. split; [exact Hn|].
  rewrite Hn in Hcount. exact Hcount.
Defined.

(** * Further properties *)

(** ** geometry.py *)

(** X1: [Normalizer] on a tree without nodes raises [ValueError]: [np.min]
    of the empty x column. *)
Theorem Normalizer_empty_raises x (σ : store) t :
  σ !! x = Some t → nx t = [] → Normalizer_call x σ = Raise ValueError.
Proof.
  intros Hx Hnx. unfold Normalizer_call. unfold_M. rewrite Hx. simpl.
  unfold_M. rewrite lookup_insert_eq. simpl. by rewrite Hnx.
Qed.

Lemma Normalizer_empty_raises_witness :
  Normalizer_call 0%nat (store_of (mkDictSWC "" [] [] [] [] [] [] []))
    = Raise ValueError.
Proof. apply (Normalizer_empty_raises _ _ (mkDictSWC "" [] [] [] [] [] [] [])); reflexivity. Defined.

Lemma foldl_fixed {A} (f : A → A → A) (a : A) (l : list A) :
  f a a = a → Forall (λ v, v = a) l → foldl f a l = a.
Proof.
  intros Hf. induction 1 as [|v l -> _ IH]; simpl; [done|]. by rewrite Hf.
Qed.

(** X2: a column whose values are all the same finite [c] is normalized to
    zeros when [c] is not 0, and to NaN throughout when [c] is 0 (a planar
    tree's z column, for instance): the division by the maximum is 0/0. *)
Theorem Normalizer_constant_column x (σ : store) t k (c : Q) :
  σ !! x = Some t → wf_table t → nid t ≠ [] →
  Forall (λ v, v = Fin c) (ndata_get k t) →
  ∃ y σ' t',
    Normalizer_call x σ = Ok (y, σ') ∧ σ' !! y = Some t' ∧
    length (ndata_get k t') = length (ndata_get k t) ∧
    ((c == 0)%Q → Forall (λ v, v = NaN) (ndata_get k t')) ∧
    (¬ (c == 0)%Q → Forall (λ v, feq v f0) (ndata_get k t')).
Proof.
  intros Hx Hwf Hne Hconst.
  destruct (Normalizer_call_spec x σ t Hx Hwf Hne) as (t' & Hcall & _ & _ & _ & _ & Hk).
  destruct (Hk k) as (lo & hi & Hlo & Hhi & Hcol).
  exists (fresh (dom σ)), (<[fresh (dom σ) := t']> σ), t'.
  split; [done|]. split; [apply lookup_insert_eq|].
  rewrite Hcol. unfold rescaled. rewrite length_map. split; [done|].
  destruct (ndata_get k t) as [|v vs]; [done|].
  apply Forall_cons in Hconst as [-> Hvs].
  assert (fmin2 (Fin c) (Fin c) = Fin c) as Hmin by (simpl; by destruct (Qle_bool c c)).
  assert (fmax2 (Fin c) (Fin c) = Fin c) as Hmax by (simpl; by destruct (Qle_bool c c)).
  simpl in Hlo, Hhi. rewrite (foldl_fixed _ _ _ Hmin Hvs) in Hlo.
  rewrite (foldl_fixed _ _ _ Hmax Hvs) in Hhi.
  injection Hlo as <-. injection Hhi as <-.
  assert (Forall (λ v, v = Fin c) (Fin c :: vs)) as Hall by (by constructor).
  split; intros Hc; apply Forall_fmap; (eapply Forall_impl; [exact Hall|]);
    intros v ->; simpl; unfold Qzero_b.
  - assert (Qeq_bool c 0 = true) as -> by (by apply Qeq_bool_iff).
    assert (Qeq_bool (c + - c) 0 = true) as -> by (apply Qeq_bool_iff; ring).
    done.
  - destruct (Qeq_bool c 0) eqn:E; [by apply Qeq_bool_iff in E|].
    simpl. unfold Qdiv. ring.
Qed.

Lemma Normalizer_constant_column_witness :
  ∃ y σ' t',
    Normalizer_call 0%nat (store_of pivot5) = Ok (y, σ') ∧ σ' !! y = Some t' ∧
    Forall (λ v, v = NaN) (nz t').
Proof.
  destruct (Normalizer_constant_column 0%nat (store_of pivot5) pivot5 key_z (inject_Z 0))
    as (y & σ' & t' & Hcall & Hy & _ & Hz & _);
    [reflexivity | by repeat split | discriminate | by repeat constructor |].
  exists y, σ', t'. split_and!; [done..|]. apply Hz. reflexivity.
Defined.

Lemma foldl_fmin2_spec (l : list fnum) (m : Q) :
  finite_col l →
  ∃ lo, foldl fmin2 (Fin m) l = Fin lo ∧ (lo <= m)%Q ∧
        Forall (λ v, ∃ q, v = Fin q ∧ (lo <= q)%Q) l ∧
        (lo = m ∨ Fin lo ∈ l).
Proof.
  revert m. induction l as [|v l IH]; intros m Hfin; simpl.
  - exists m. split_and!; [done|apply Qle_refl|constructor|by left].
  - apply Forall_cons in Hfin as [Hv Hl]. destruct v as [a| |]; try done.
    simpl. destruct (Qle_bool m a) eqn:E.
    + apply Qle_bool_iff in E.
      destruct (IH m Hl) as (lo & Hlo & Hle & Hall & Hin).
      exists lo. split_and!; [done..| |].
      * constructor; [|done]. exists a. split; [done|]. by eapply Qle_trans.
      * destruct Hin; [by left|right; by right].
    + assert (a <= m)%Q as Ham.
      { apply Qnot_lt_le. intros Hlt%Qlt_le_weak%Qle_bool_iff. congruence. }
      destruct (IH a Hl) as (lo & Hlo & Hle & Hall & Hin).
      exists lo. split_and!; [done|by eapply Qle_trans| |].
      * constructor; [|done]. by exists a.
      * right. destruct Hin as [->|?]; [left|by right].
Qed.

Lemma foldl_fmax2_spec (l : list fnum) (m : Q) :
  finite_col l →
  ∃ hi, foldl fmax2 (Fin m) l = Fin hi ∧ (m <= hi)%Q ∧
        Forall (λ v, ∃ q, v = Fin q ∧ (q <= hi)%Q) l.
Proof.
  revert m. induction l as [|v l IH]; intros m Hfin; simpl.
  - exists m. split_and!; [done|apply Qle_refl|constructor].
  - apply Forall_cons in Hfin as [Hv Hl]. destruct v as [a| |]; try done.
    simpl. destruct (Qle_bool m a) eqn:E.
    + apply Qle_bool_iff in E.
      destruct (IH a Hl) as (hi & Hhi & Hle & Hall).
      exists hi. split_and!; [done|by eapply Qle_trans|].
      constructor; [|done]. by exists a.
    + assert (a <= m)%Q as Ham.
      { apply Qnot_lt_le. intros Hlt%Qlt_le_weak%Qle_bool_iff. congruence. }
      destruct (IH m Hl) as (hi & Hhi & Hle & Hall).
      exists hi. split_and!; [done..|].
      constructor; [|done]. exists a. split; [done|]. by eapply Qle_trans.
Qed.

(** X3: a column of finite non-negative values with a positive one among
    them (radii, for instance) is normalized into [0, 1], and its minimum
    goes to 0. *)
Theorem Normalizer_unit_range x (σ : store) t k :
  σ !! x = Some t → wf_table t → nid t ≠ [] →
  Forall (λ v, ∃ q, v = Fin q ∧ (0 <= q)%Q) (ndata_get k t) →
  Exists (λ v, ∃ q, v = Fin q ∧ (0 < q)%Q) (ndata_get k t) →
  ∃ y σ' t',
    Normalizer_call x σ = Ok (y, σ') ∧ σ' !! y = Some t' ∧
    Forall (λ v, ∃ q, v = Fin q ∧ (0 <= q)%Q ∧ (q <= 1)%Q) (ndata_get k t') ∧
    Exists (λ v, feq v f0) (ndata_get k t').
Proof.
  intros Hx Hwf Hne Hnn Hpos.
  destruct (Normalizer_call_spec x σ t Hx Hwf Hne) as (t' & Hcall & _ & _ & _ & _ & Hk).
  destruct (Hk k) as (lo' & hi' & Hlo & Hhi & Hcol).
  exists (fresh (dom σ)), (<[fresh (dom σ) := t']> σ), t'.
  split; [done|]. split; [apply lookup_insert_eq|]. rewrite Hcol. clear Hcol Hcall Hk.
  destruct (ndata_get k t) as [|v vs] eqn:Ecol; [by apply Exists_nil in Hpos|].
  assert (finite_col (v :: vs)) as Hfin.
  { eapply Forall_impl; [exact Hnn|]. by intros ? (q & -> & _). }
  pose proof Hnn as Hnn'. apply Forall_cons in Hnn' as [(m & -> & Hm) _].
  apply Forall_cons in Hfin as [_ Hfin].
  destruct (foldl_fmin2_spec vs m Hfin) as (lo & Elo & Hlom & Hlo_all & Hlo_in).
  destruct (foldl_fmax2_spec vs m Hfin) as (hi & Ehi & Hmhi & Hhi_all).
  simpl in Hlo, Hhi. rewrite Elo in Hlo. rewrite Ehi in Hhi.
  injection Hlo as <-. injection Hhi as <-.
  assert (Forall (λ v, ∃ q, v = Fin q ∧ (lo <= q)%Q ∧ (q <= hi)%Q ∧ (0 <= q)%Q) (Fin m :: vs))
    as Hbounds.
  { constructor; [by exists m|].
    apply Forall_forall. intros v Hv.
    destruct (proj1 (Forall_forall _ _) Hlo_all v Hv) as (q & -> & ?).
    destruct (proj1 (Forall_forall _ _) Hhi_all _ Hv) as (q' & [= <-] & ?).
    apply Forall_cons in Hnn as [_ Hnn].
    destruct (proj1 (Forall_forall _ _) Hnn _ Hv) as (q'' & [= <-] & ?).
    by exists q. }
  assert (0 <= lo)%Q as Hlo0.
  { destruct Hlo_in as [->|Hin]; [done|].
    apply Forall_cons in Hnn as [_ Hnn].
    by destruct (proj1 (Forall_forall _ _) Hnn _ Hin) as (q & [= <-] & ?). }
  assert (0 < hi)%Q as Hhi0.
  { apply Exists_exists in Hpos as (v & Hv & q & -> & Hq).
    destruct (proj1 (Forall_forall _ _) Hbounds _ Hv) as (q' & [= <-] & _ & ? & _).
    by eapply Qlt_le_trans. }
  assert (Qzero_b hi = false) as Hz.
  { unfold Qzero_b. destruct (Qeq_bool hi 0) eqn:E; [|done].
    apply Qeq_bool_iff in E. rewrite E in Hhi0. by apply Qlt_irrefl in Hhi0. }
  split.
  - unfold rescaled. apply Forall_fmap. eapply Forall_impl; [exact Hbounds|].
    intros v (q & -> & Hq1 & Hq2 & Hq3). simpl. rewrite Hz.
    eexists. split; [reflexivity|]. split.
    + apply Qle_shift_div_l; [done|]. rewrite Qmult_0_l.
      rewrite <- (Qplus_opp_r lo). by apply Qplus_le_l.
    + apply Qle_shift_div_r; [done|]. rewrite Qmult_1_l.
      apply Qle_trans with (q + 0)%Q; [|by rewrite Qplus_0_r].
      apply Qplus_le_r. rewrite <- (Qopp_involutive 0). apply Qopp_le_compat.
      by change (- 0)%Q with 0%Q.
  - unfold rescaled. apply Exists_fmap.
    assert (Fin lo ∈ Fin m :: vs) as Hin.
    { destruct Hlo_in as [->|?]; [left|by right]. }
    apply Exists_exists. exists (Fin lo). split; [done|]. simpl. rewrite Hz. simpl.
    unfold Qdiv. ring.
Qed.

Lemma Normalizer_unit_range_witness :
  ∃ y σ' t',
    Normalizer_call 0%nat (store_of mixed2) = Ok (y, σ') ∧ σ' !! y = Some t' ∧
    Forall (λ v, ∃ q, v = Fin q ∧ (0 <= q)%Q ∧ (q <= 1)%Q) (nr t').
Proof.
  destruct (Normalizer_unit_range 0%nat (store_of mixed2) mixed2 key_r)
    as (y & σ' & t' & Hcall & Hy & Hr & _);
    [reflexivity | by repeat split | discriminate | |
     | by exists y, σ', t'].
  - repeat constructor; eexists; (split; [reflexivity|]); by vm_compute.
  - constructor. eexists. split; [reflexivity|]. by vm_compute.
Defined.

(** X4: the tree a transform returns is again well formed and has the same
    parent column, so a second transform of any pivot mode applies to it;
    after both calls the input and the intermediate tree are unchanged and
    the result has the ids, types, parents and radii of the input. *)
Theorem transforms_chain f g x (σ : store) t :
  σ !! x = Some t → wf_table t → n_roots t = 1%nat →
  ∃ y z σ1 σ2 ty tz,
    _Transform_call f x σ = Ok (y, σ1) ∧ _Transform_call g y σ1 = Ok (z, σ2) ∧
    x ≠ y ∧ y ≠ z ∧ x ≠ z ∧
    σ2 !! x = Some t ∧ σ1 !! y = Some ty ∧ σ2 !! y = Some ty ∧ σ2 !! z = Some tz ∧
    wf_table tz ∧ n_roots tz = 1%nat ∧
    nid tz = nid t ∧ ntype tz = ntype t ∧ npid tz = npid t ∧ nr tz = nr t.
Proof.
  intros Hx Hwf Hn.
  destruct (_Transform_call_spec f x σ t Hx Hwf (or_intror Hn))
    as (m1 & pts1 & Hpts1 & Hlen1 & Hcall1).
  set (y := fresh (dom σ)) in *. set (ty := moved m1 t pts1) in *.
  set (σ1 := <[y := ty]> σ) in *.
  assert (σ1 !! y = Some ty) as Hy by apply lookup_insert_eq.
  assert (wf_table ty) as Hwfy by (by apply moved_wf).
  destruct (_Transform_call_spec g y σ1 ty Hy Hwfy (or_intror Hn))
    as (m2 & pts2 & Hpts2 & Hlen2 & Hcall2).
  set (z := fresh (dom σ1)) in *. set (tz := moved m2 ty pts2) in *.
  assert (x ≠ y) as Hxy.
  { intros ->. unfold y in Hx. by rewrite fresh_loc_unused in Hx. }
  assert (y ≠ z) as Hyz.
  { intros E. unfold z in E. rewrite E in Hy. by rewrite fresh_loc_unused in Hy. }
  assert (σ1 !! x = Some t) as Hx1 by (unfold σ1; by rewrite lookup_insert_ne).
  assert (x ≠ z) as Hxz.
  { intros E. unfold z in E. rewrite E in Hx1. by rewrite fresh_loc_unused in Hx1. }
  exists y, z, σ1, (<[z := tz]> σ1), ty, tz.
  split_and!; try done.
  - by rewrite lookup_insert_ne.
  - by rewrite lookup_insert_ne.
  - apply lookup_insert_eq.
  - by apply moved_wf.
Qed.

Lemma transforms_chain_witness :
  ∃ y z σ1 σ2 tz,
    _Transform_call (Scale str0 (Fz 2) (Fz 2) (Fz 2) None) 0%nat (store_of pivot5)
      = Ok (y, σ1) ∧
    _Transform_call (Translate str0 (Fz 1) (Fz 0) (Fz 0)) y σ1 = Ok (z, σ2) ∧
    σ2 !! 0%nat = Some pivot5 ∧ σ2 !! z = Some tz ∧ nr tz = nr pivot5.
Proof.
  destruct (transforms_chain (Scale str0 (Fz 2) (Fz 2) (Fz 2) None)
              (Translate str0 (Fz 1) (Fz 0) (Fz 0)) 0%nat (store_of pivot5) pivot5)
    as (y & z & σ1 & σ2 & ty & tz & H1 & H2 & _ & _ & _ & Hx & _ & _ & Hz & _ & _ &
        _ & _ & _ & Hr);
    [reflexivity | by repeat split | reflexivity |].
  by exists y, z, σ1, σ2, tz.
Defined.

(** ** branch_tree.py *)

Lemma dict_get_Some_key {V} k (d : dict V) v : dict_get k d = Some v → k ∈ dict_keys d.
Proof.
  intros H. apply dec_stable. intros Hn%dict_get_None. congruence.
Qed.

Lemma dict_values_by_key {V} (d : dict (list V)) :
  NoDup (dict_keys d) →
  dict_values d = map (λ k, default [] (dict_get k d)) (dict_keys d).
Proof.
  induction d as [|[k v] d IH]; simpl; [done|].
  intros [Hk Hd]%NoDup_cons. rewrite decide_True by done. simpl. f_equal.
  rewrite (IH Hd). apply map_ext_in. intros k' Hk'%list_elem_of_In.
  rewrite decide_False; [done|]. by intros ->.
Qed.

(** X7: whenever [from_tree] returns, the branch tree carries the source
    label of the input tree, and its [branches] dict has pairwise distinct
    keys, each the id of a node of the reduced tree, and under each key a
    non-empty list of detached branches. *)
Theorem from_tree_invariants G (t : DictSWC) bt :
  from_tree G t = Ok bt →
  source (tree_of bt) = source t ∧
  NoDup (dict_keys (branches bt)) ∧
  (∀ k, k ∈ dict_keys (branches bt) → k ∈ nid (tree_of bt)) ∧
  (∀ k l, dict_get k (branches bt) = Some l →
          l ≠ [] ∧ Forall (λ br, attach br = None) l).
Proof.
  intros Hfrom.
  destruct (from_tree_inv G t bt Hfrom)
    as (lasts & firsts & _ & _ & Hnid & Hsrc & _ & Hd & _ & Hkeys & Hget).
  split_and!; try done.
  - intros k (br & _ & Hbr)%Hkeys. rewrite Hnid. unfold new_id_of_first in Hbr.
    destruct (head (nodes br)) as [n|]; [|done]. by apply remap_range in Hbr.
  - intros k l Hl. pose proof (Hget k) as Hk. rewrite Hl in Hk. simpl in Hk. subst l.
    split.
    + apply dict_get_Some_key, Hkeys in Hl as (br & Hbr & Hnew).
      assert (br ∈ filed_under (remap (0 :: lasts)) k (G t)) as Hin
        by (by apply list_elem_of_filter).
      intros E. destruct (filed_under _ k (G t)); [by apply elem_of_nil in Hin|done].
    + apply Forall_fmap. by apply Forall_true.
Qed.

Lemma from_tree_invariants_witness :
  ∃ bt, from_tree extract_branches fork5 = Ok bt ∧
        source (tree_of bt) = source fork5 ∧ NoDup (dict_keys (branches bt)).
Proof.
  pose (r := from_tree extract_branches fork5).
  assert (∃ bt, r = Ok bt) as [bt Hbt] by (vm_compute; by eexists).
  exists bt. split; [exact Hbt|].
  destruct (from_tree_invariants extract_branches fork5 bt Hbt) as (Hs & Hd & _).
  by split.
Defined.

(** X8: whenever [from_tree] returns, [get_branches()] lists the detached
    branches node by node: the keys of the dict in their order, and under
    each key the branches filed under it, in the order of extraction. *)
Theorem get_branches_grouped G (t : DictSWC) bt :
  from_tree G t = Ok bt →
  ∃ sub_id sub_pid,
    retained (G t) = Ok (sub_id, sub_pid) ∧
    get_branches bt
      = concat (map (λ k, map detach (filed_under (remap sub_id) k (G t)))
                    (dict_keys (branches bt))).
Proof.
  intros Hfrom.
  destruct (from_tree_inv G t bt Hfrom)
    as (lasts & firsts & Hret & _ & _ & _ & _ & Hd & _ & _ & Hget).
  exists (0 :: lasts), (-1 :: firsts). split; [done|].
  unfold get_branches. rewrite (dict_values_by_key _ Hd). f_equal.
  apply map_ext. intros k. apply Hget.
Qed.

Lemma get_branches_grouped_witness :
  ∃ bt, from_tree extract_branches fork5 = Ok bt ∧
        map branch_ids (get_branches bt) = [[0; 1; 2]; [2; 3]; [2; 4]].
Proof.
  pose (r := from_tree extract_branches fork5).
  assert (∃ bt, r = Ok bt) as [bt Hbt] by (vm_compute; by eexists).
  exists bt. split; [exact Hbt|].
  destruct (get_branches_grouped extract_branches fork5 bt Hbt)
    as (sub_id & sub_pid & Hret & ->).
  vm_compute in Hret. injection Hret as <- <-.
  unfold r in Hbt. vm_compute in Hbt. injection Hbt as <-. reflexivity.
Defined.

(** X9: when the extractor returns no branch (a single-node tree) and the
    tree has a node with the id 0, [from_tree] returns a branch tree of one
    node, 0 with parent -1, with an empty dict: [get_branches()] is empty and
    [get_node_branches] raises for every id, 0 included. *)
Theorem from_tree_no_branches G (t : DictSWC) :
  G t = [] → wf_table t → 0 ∈ nid t →
  ∃ bt, from_tree G t = Ok bt ∧
        nid (tree_of bt) = [0] ∧ npid (tree_of bt) = [-1] ∧
        number_of_nodes (tree_of bt) = 1%nat ∧
        branches bt = [] ∧ get_branches bt = [] ∧
        ∀ k, get_node_branches bt k = Raise KeyError.
Proof.
  intros HG Hwf H0. unfold from_tree. rewrite HG. simpl.
  unfold mbind, result_MBind. simpl. unfold to_sub_tree. simpl.
  unfold mbind, result_MBind. simpl.
  destruct (node_of_total t 0 Hwf H0) as [n ->]. simpl.
  eexists. split; [reflexivity|]. simpl. split_and!; done.
Qed.

Lemma from_tree_no_branches_witness :
  ∃ bt, from_tree extract_branches (mkDictSWC "" [0] [1] [Fz 0] [Fz 0] [Fz 0] [Fz 1] [-1])
          = Ok bt ∧
        number_of_nodes (tree_of bt) = 1%nat ∧
        get_node_branches bt 0 = Raise KeyError.
Proof.
  destruct (from_tree_no_branches extract_branches
              (mkDictSWC "" [0] [1] [Fz 0] [Fz 0] [Fz 0] [Fz 1] [-1]))
    as (bt & Hfrom & _ & _ & Hn & _ & _ & Hk);
    [reflexivity | by repeat split | set_solver |].
  exists bt. split_and!; [done..|apply Hk].
Defined.

Lemma rmapM_raises {A B} (f : A → result B) (e : exn) (l : list A) :
  (∀ a e', f a = Raise e' → e' = e) →
  (∃ a e', a ∈ l ∧ f a = Raise e') →
  rmapM f l = Raise e.
Proof.
  intros Hf. induction l as [|a l IH]; simpl.
  - by intros (? & ? & ?%elem_of_nil & _).
  - intros (a' & e' & Hin & Ha').
    destruct (f a) as [b|e0] eqn:Ea; simpl.
    + apply elem_of_cons in Hin as [->|Hin]; [congruence|].
      rewrite IH; [done|eauto].
    + by rewrite (Hf a e0 Ea).
Qed.

(** X10: when a branch starts at a node whose id is neither 0 nor the last id
    of a branch (the root of a tree whose root id is not 0, for instance),
    [from_tree] raises [KeyError]: that id has no entry in the remap table. *)
Theorem from_tree_unretained_first G (t : DictSWC) br v :
  Forall (λ br, nodes br ≠ []) (G t) →
  br ∈ G t → head (branch_ids br) = Some v → v ≠ -1 → v ≠ 0 →
  (∀ br', br' ∈ G t → last (branch_ids br') ≠ Some v) →
  from_tree G t = Raise KeyError.
Proof.
  intros Hne Hbr Hv Hv1 Hv0 Hnl.
  destruct (retained_spec (G t) Hne) as (lasts & firsts & Hret & Hlasts & Hfirsts).
  unfold from_tree. rewrite Hret. unfold mbind at 1. unfold result_MBind. simpl rbind.
  assert (v ∉ 0 :: lasts) as Hnot.
  { intros [?|Hin]%elem_of_cons; [done|].
    apply (Forall2_last_elem _ _ _ Hlasts) in Hin as (br' & Hbr' & Hl).
    by apply (Hnl br' Hbr'). }
  assert (v ∈ firsts) as Hin.
  { apply list_elem_of_lookup_1 in Hbr as [i Hi].
    destruct (Forall2_lookup_l _ _ _ _ _ Hfirsts Hi) as (w & Hw & Hhw).
    apply list_elem_of_lookup_2 in Hw. congruence. }
  unfold to_sub_tree. unfold mbind at 1. unfold result_MBind.
  rewrite (rmapM_raises (λ p, if p =? -1 then Ok (-1)
                              else of_option KeyError (remap (0 :: lasts) !! p))
             KeyError (-1 :: firsts)); [done| |].
  - intros p e'. destruct (p =? -1); [done|].
    destruct (remap (0 :: lasts) !! p); simpl; [done|]. by intros [= <-].
  - exists v, KeyError. split; [by right|].
    destruct (Z.eqb_spec v (-1)); [done|].
    destruct (remap (0 :: lasts) !! v) eqn:E; [|done].
    destruct Hnot. apply remap_dom. by eexists.
Qed.

Lemma from_tree_unretained_first_witness :
  from_tree extract_branches root5 = Raise KeyError.
Proof.
  pose (br := mkBranch (Some root5)
                [Node.mk 5 1 (Fz 0) (Fz 0) (Fz 0) (Fz 1) (-1);
                 Node.mk 6 3 (Fz 1) (Fz 0) (Fz 0) (Fz 1) 5]).
  apply (from_tree_unretained_first extract_branches root5 br 5).
  - repeat constructor; discriminate.
  - vm_compute. left.
  - reflexivity.
  - lia.
  - lia.
  - intros br' Hin. vm_compute in Hin. apply list_elem_of_singleton in Hin as ->.
    vm_compute. discriminate.
Defined.

(** ** Python loops and indexing *)

Lemma py_index_nat {A} (l : list A) (i : nat) :
  py_index l (Z.of_nat i) = of_option IndexError (l !! i).
Proof.
  unfold py_index. rewrite bool_decide_eq_true_2 by lia. by rewrite Nat2Z.id.
Qed.

Lemma for_in_run {A St} (getitem : Z → result A) (body : A → St → St)
    (xs : list A) (k : nat) (s : St) (fuel : nat) (e : exn) :
  (∀ j x, xs !! j = Some x → getitem (Z.of_nat (k + j)) = Ok x) →
  getitem (Z.of_nat (k + length xs)) = Raise e →
  (length xs < fuel)%nat →
  for_in fuel getitem body k s =
    if ends_loop e then Finished (foldl (λ s x, body x s) s xs)
    else Raised e (foldl (λ s x, body x s) s xs).
Proof.
  revert k s fuel. induction xs as [|x xs IH]; intros k s fuel Hok He Hfuel.
  - destruct fuel as [|fuel]; [simpl in Hfuel; lia|]. simpl in *.
    rewrite Nat.add_0_r in He. by rewrite He.
  - destruct fuel as [|fuel]; [simpl in Hfuel; lia|]. simpl.
    rewrite <- (Nat.add_0_r k) at 1. rewrite (Hok 0%nat x eq_refl).
    apply IH.
    + intros j y Hj. replace (S k + j)%nat with (k + S j)%nat by lia. by apply Hok.
    + replace (S k + length xs)%nat with (k + length (x :: xs))%nat by (simpl; lia).
      done.
    + simpl in Hfuel. lia.
Qed.

Lemma foldl_snoc {A} (xs s : list A) : foldl (λ s x, s ++ [x]) s xs = s ++ xs.
Proof.
  revert s. induction xs as [|x xs IH]; intros s; simpl; [by rewrite app_nil_r|].
  by rewrite IH, <- (assoc_L (++)).
Qed.

Lemma foldl_map {A B C} (f : A → B → A) (g : C → B) (x : A) (l : list C) :
  foldl f x (map g l) = foldl (λ a b, f a (g b)) x l.
Proof. apply foldl_fmap. Qed.

Lemma lookup_map_Some {A B} (g : A → B) (l : list A) (j : nat) (y : B) :
  map g l !! j = Some y → ∃ x, y = g x ∧ l !! j = Some x.
Proof. intros H. by apply (list_lookup_fmap_Some g) in H. Qed.

(** ** Paths *)

Lemma list_ascii_of_string_app (s1 s2 : string) :
  String.list_ascii_of_string (s1 +:+ s2)
  = String.list_ascii_of_string s1 ++ String.list_ascii_of_string s2.
Proof. induction s1 as [|a s1 IH]; simpl; [done|]. by rewrite IH. Qed.

Lemma string_of_list_ascii_app (l1 l2 : list ascii) :
  String.string_of_list_ascii (l1 ++ l2)
  = (String.string_of_list_ascii l1 +:+ String.string_of_list_ascii l2)%string.
Proof. induction l1 as [|a l1 IH]; simpl; [done|]. by rewrite IH. Qed.

Lemma rfind_nat_None c l : rfind_nat c l = None ↔ c ∉ l.
Proof.
  induction l as [|a l IH]; simpl.
  - split; [intros _; apply not_elem_of_nil|done].
  - rewrite not_elem_of_cons. destruct (rfind_nat c l) as [i|].
    + split; [done|]. intros [_ Hn]. by apply IH in Hn.
    + destruct (decide (a = c)) as [->|Hne].
      * split; [done|]. by intros [? _].
      * split; [|done]. intros _. split; [done|]. by apply IH.
Qed.

Lemma rfind_nat_Some c l i :
  rfind_nat c l = Some i → l !! i = Some c ∧ c ∉ drop (S i) l.
Proof.
  revert i. induction l as [|a l IH]; intros i; simpl; [done|].
  destruct (rfind_nat c l) as [j|] eqn:E.
  - intros [= <-]. by apply IH.
  - destruct (decide (a = c)) as [->|]; [|done]. intros [= <-]. simpl.
    split; [done|]. rewrite drop_0. by apply rfind_nat_None.
Qed.

Lemma rfind_nat_app c l1 l2 :
  rfind_nat c (l1 ++ l2)
  = match rfind_nat c l2 with
    | Some j => Some (length l1 + j)%nat
    | None => rfind_nat c l1
    end.
Proof.
  induction l1 as [|a l1 IH]; simpl; [by destruct (rfind_nat c l2)|].
  rewrite IH. by destruct (rfind_nat c l2).
Qed.

Lemma has_non_dot_true l : has_non_dot l = true ↔ ∃ a, a ∈ l ∧ a ≠ "."%char.
Proof.
  induction l as [|a l IH]; simpl.
  - split; [done|]. by intros (? & ?%elem_of_nil & _).
  - destruct (decide (a = "."%char)) as [->|Hne].
    + rewrite IH. split.
      * intros (a & ? & ?). exists a. split; [by right|done].
      * intros (a & [->|?]%elem_of_cons & ?); [done|]. by exists a.
    + split; [|done]. intros _. exists a. split; [left|done].
Qed.

Lemma has_non_dot_suffix l1 l2 : has_non_dot l2 = true → has_non_dot (l1 ++ l2) = true.
Proof.
  rewrite !has_non_dot_true. intros (a & ? & ?). exists a. split; [|done].
  apply elem_of_app. by right.
Qed.

Lemma string_list_inj (s1 s2 : string) :
  String.list_ascii_of_string s1 = String.list_ascii_of_string s2 → s1 = s2.
Proof.
  intros H. rewrite <- (String.string_of_list_ascii_of_string s1),
    <- (String.string_of_list_ascii_of_string s2). by rewrite H.
Qed.

(** The extension that [os.path.splitext] returns is [".swc"] exactly for the
    names that end in [".swc"] after a character that is no dot. *)
Lemma splitext_swc (f : string) :
  "/"%char ∉ String.list_ascii_of_string f →
  (splitext f).2 = ".swc"%string ↔
  ∃ pre, f = (pre +:+ ".swc")%string ∧
         has_non_dot (String.list_ascii_of_string pre) = true.
Proof.
  intros Hsep. unfold splitext.
  set (l := String.list_ascii_of_string f) in *.
  assert (rfind "/"%char l = -1) as ->.
  { unfold rfind. by apply rfind_nat_None in Hsep as ->. }
  split.
  - unfold rfind. destruct (rfind_nat "."%char l) as [d|] eqn:Ed; simpl; [|done].
    rewrite bool_decide_eq_true_2 by lia.
    change (-1 + 1) with 0. rewrite Z.sub_0_r, Nat2Z.id. change (Z.to_nat 0) with 0%nat. rewrite drop_0.
    destruct (has_non_dot (take d l)) eqn:Hnd; simpl; [|done].
    intros Hext. exists (String.string_of_list_ascii (take d l)).
    rewrite String.list_ascii_of_string_of_list_ascii. split; [|done].
    rewrite <- Hext, <- string_of_list_ascii_app, take_drop. unfold l.
    by rewrite String.string_of_list_ascii_of_string.
  - intros (pre & -> & Hnd). unfold l. rewrite list_ascii_of_string_app.
    set (lp := String.list_ascii_of_string pre) in *.
    unfold rfind. rewrite rfind_nat_app. simpl.
    rewrite bool_decide_eq_true_2 by lia. rewrite Nat.add_0_r.
    change (-1 + 1) with 0. rewrite Z.sub_0_r, Nat2Z.id. change (Z.to_nat 0) with 0%nat. rewrite drop_0.
    rewrite take_app_length, Hnd, drop_app_length. done.
Qed.

(** ** tree_folder_dataset.py *)

(** X11: where no name in a directory listing holds a separator, [find_swcs]
    returns exactly the joined paths of the files, in the directory or
    anywhere below it, whose name ends in [".swc"] (in lower case) after at
    least one character that is no dot; a file called [".swc"] or ["..swc"]
    is not found. *)
Theorem find_swcs_spec (ls : string → dirtree) (swc_dir p : string) :
  Forall (λ entry : string * list string * list string,
            Forall (λ f, "/"%char ∉ String.list_ascii_of_string f) entry.2)
         (walk swc_dir (ls swc_dir)) →
  p ∈ TreeFolderDataset.find_swcs ls swc_dir ↔
  ∃ dirpath dirs files pre c,
    (dirpath, dirs, files) ∈ walk swc_dir (ls swc_dir) ∧
    (pre +:+ ".swc")%string ∈ files ∧
    c ∈ String.list_ascii_of_string pre ∧ c ≠ "."%char ∧
    p = path_join dirpath (pre +:+ ".swc").
Proof.
  intros Hnames. unfold TreeFolderDataset.find_swcs.
  rewrite list_elem_of_In, in_flat_map. split.
  - intros ([[dirpath dirs] files] & Hentry%list_elem_of_In & Hp).
    apply list_elem_of_In, list_elem_of_fmap in Hp as (f & -> & Hf).
    apply list_elem_of_filter in Hf as [Hext Hf].
    rewrite Forall_forall in Hnames. pose proof (Hnames _ Hentry) as Hfiles.
    simpl in Hfiles. rewrite Forall_forall in Hfiles.
    apply splitext_swc in Hext as (pre & -> & Hnd); [|by apply Hfiles].
    apply has_non_dot_true in Hnd as (c & Hc & Hne).
    by exists dirpath, dirs, files, pre, c.
  - intros (dirpath & dirs & files & pre & c & Hentry & Hf & Hc & Hne & ->).
    exists (dirpath, dirs, files). split; [by apply list_elem_of_In|].
    apply list_elem_of_In, list_elem_of_fmap. eexists. split; [done|].
    apply list_elem_of_filter. split; [|done].
    rewrite Forall_forall in Hnames. pose proof (Hnames _ Hentry) as Hfiles.
    simpl in Hfiles. rewrite Forall_forall in Hfiles.
    apply splitext_swc; [by apply Hfiles|]. exists pre. split; [done|].
    apply has_non_dot_true. by exists c.
Qed.

Lemma find_swcs_spec_witness :
  let ls := λ _ : string,
    Dir [("sub"%string, Dir [] ["b.swc"; ".swc"]%string)]
        ["a.swc"; "notes.txt"; "c.SWC"]%string in
  "data/sub/b.swc"%string ∈ TreeFolderDataset.find_swcs ls "data" ∧
  TreeFolderDataset.find_swcs ls "data" = ["data/a.swc"; "data/sub/b.swc"]%string.
Proof.
  intros ls. split; [|vm_compute; reflexivity].
  apply (find_swcs_spec ls "data" "data/sub/b.swc"); [compute_done|].
  exists "data/sub"%string, [], ["b.swc"; ".swc"]%string, "b"%string, "b"%char.
  split_and!; [compute_done|compute_done|compute_done|done|vm_compute; reflexivity].
Defined.

Section TreeFolder.

Variable Tree_from_swc : string → result DictSWC.
Context {X : Type}.

Lemma TreeFolderDataset_getitem_nat (self : TreeFolderDataset.t X) (i : nat) :
  TreeFolderDataset.getitem Tree_from_swc self (Z.of_nat i)
  = (path ← of_option IndexError (TreeFolderDataset.swcs self !! i);
     tree ← Tree_from_swc path;
     x ← apply_transform (TreeFolderDataset.transform self) tree;
     Ok (x, 0)).
Proof. unfold TreeFolderDataset.getitem. by rewrite py_index_nat. Qed.

Lemma TreeFolderDataset_run {St} (self : TreeFolderDataset.t X)
    (body : sample DictSWC X * Z → St → St) (s : St)
    (loaded : list (sample DictSWC X)) (e : exn) (fuel : nat) :
  Forall2 (λ path x, ∃ tree, Tree_from_swc path = Ok tree ∧
                       apply_transform (TreeFolderDataset.transform self) tree = Ok x)
          (take (length loaded) (TreeFolderDataset.swcs self)) loaded →
  TreeFolderDataset.getitem Tree_from_swc self (Z.of_nat (length loaded)) = Raise e →
  (length loaded < fuel)%nat →
  for_in fuel (TreeFolderDataset.getitem Tree_from_swc self) body 0 s
  = if ends_loop e
    then Finished (foldl (λ s x, body (x, 0) s) s loaded)
    else Raised e (foldl (λ s x, body (x, 0) s) s loaded).
Proof.
  intros Hall He Hfuel.
  rewrite (for_in_run _ body (map (λ x, (x, 0)) loaded) 0 s fuel e).
  - by rewrite foldl_map.
  - intros j xy Hj. apply lookup_map_Some in Hj as (x & -> & Hj). simpl.
    destruct (Forall2_lookup_r _ _ _ _ _ Hall Hj) as (path & Hpath & tree & Ht & Hx).
    apply lookup_take_Some in Hpath as [Hpath _].
    rewrite TreeFolderDataset_getitem_nat, Hpath. simpl.
    unfold mbind, result_MBind. rewrite Ht. simpl. by rewrite Hx.
  - by rewrite length_map.
  - by rewrite length_map.
Qed.

(** X12: when every file of the dataset loads and goes through the transform,
    a [for] loop over the dataset, which has [__getitem__] and no [__iter__],
    ends after [len + 1] calls and yields one pair per file, in the order of
    [swcs], each with the label 0. *)
Theorem TreeFolderDataset_iterates_all (self : TreeFolderDataset.t X)
    (loaded : list (sample DictSWC X)) (fuel : nat) :
  Forall2 (λ path x, ∃ tree, Tree_from_swc path = Ok tree ∧
                       apply_transform (TreeFolderDataset.transform self) tree = Ok x)
          (TreeFolderDataset.swcs self) loaded →
  (TreeFolderDataset.len self < fuel)%nat →
  TreeFolderDataset.items Tree_from_swc fuel self
  = Finished (map (λ x, (x, 0)) loaded).
Proof.
  intros Hall Hfuel. pose proof (Forall2_length _ _ _ Hall) as Hlen.
  unfold TreeFolderDataset.items, TreeFolderDataset.len in *.
  rewrite (TreeFolderDataset_run self _ [] loaded IndexError).
  - cbv beta. by rewrite <- (foldl_map (λ s a, s ++ [a]) (λ x, (x, 0))), foldl_snoc.
  - by rewrite <- Hlen, firstn_all.
  - rewrite TreeFolderDataset_getitem_nat, <- Hlen.
    by rewrite lookup_ge_None_2.
  - lia.
Qed.

(** X13: a [for] loop over the dataset stops at the first file that fails to
    load or to transform.  When the exception is an [IndexError] or a
    [StopIteration] the loop ends as if the dataset ended there, with the
    pairs of the files before it and no error; any other exception leaves
    the loop. *)
Theorem TreeFolderDataset_iteration_stops (self : TreeFolderDataset.t X)
    (loaded : list (sample DictSWC X)) (path : string) (e : exn) (fuel : nat) :
  Forall2 (λ path x, ∃ tree, Tree_from_swc path = Ok tree ∧
                       apply_transform (TreeFolderDataset.transform self) tree = Ok x)
          (take (length loaded) (TreeFolderDataset.swcs self)) loaded →
  TreeFolderDataset.swcs self !! length loaded = Some path →
  (tree ← Tree_from_swc path;
   apply_transform (TreeFolderDataset.transform self) tree) = Raise e →
  (length loaded < fuel)%nat →
  TreeFolderDataset.items Tree_from_swc fuel self
  = if ends_loop e
    then Finished (map (λ x, (x, 0)) loaded)
    else Raised e (map (λ x, (x, 0)) loaded).
Proof.
  intros Hall Hpath He Hfuel. unfold TreeFolderDataset.items.
  rewrite (TreeFolderDataset_run self _ [] loaded e); [|done| |done].
  - cbv beta. by rewrite <- (foldl_map (λ s a, s ++ [a]) (λ x, (x, 0))), foldl_snoc.
  - rewrite TreeFolderDataset_getitem_nat, Hpath. simpl.
    unfold mbind, result_MBind in *.
    destruct (Tree_from_swc path) as [tree|e']; simpl in *.
    + by rewrite He.
    + congruence.
Qed.

End TreeFolder.

Lemma TreeFolderDataset_iterates_all_witness :
  TreeFolderDataset.items (λ _, Ok chain3) 3
    (TreeFolderDataset.mk "d" ["d/a.swc"; "d/b.swc"]%string (@None (DictSWC → result DictSWC)))
  = Finished [(Raw chain3, 0); (Raw chain3, 0)].
Proof.
  apply (TreeFolderDataset_iterates_all (λ _, Ok chain3)
           (TreeFolderDataset.mk "d" ["d/a.swc"; "d/b.swc"]%string None)
           [Raw chain3; Raw chain3] 3).
  - repeat (constructor; [by exists chain3|]). constructor.
  - unfold TreeFolderDataset.len. simpl. lia.
Defined.

Lemma TreeFolderDataset_iteration_stops_witness :
  let from_swc := λ p : string,
    if decide (p = "d/a.swc"%string) then Ok chain3 else Raise StopIteration in
  TreeFolderDataset.items from_swc 4
    (TreeFolderDataset.mk "d" ["d/a.swc"; "d/b.swc"; "d/a.swc"]%string
       (@None (DictSWC → result DictSWC)))
  = Finished [(Raw chain3, 0)].
Proof.
  intros from_swc.
  apply (TreeFolderDataset_iteration_stops from_swc
           (TreeFolderDataset.mk "d" ["d/a.swc"; "d/b.swc"; "d/a.swc"]%string None)
           [Raw chain3] "d/b.swc" StopIteration 4).
  - repeat (constructor; [by exists chain3|]). constructor.
  - reflexivity.
  - reflexivity.
  - simpl. lia.
Defined.

(** ** branch_dataset.py *)

Lemma for_in_terminates {A St} (getitem : Z → result A) (body : A → St → St)
    (n : nat) (e : exn) (fuel k : nat) (s : St) :
  getitem (Z.of_nat n) = Raise e → (k ≤ n)%nat → (n - k < fuel)%nat →
  for_in fuel getitem body k s ≠ OutOfFuel.
Proof.
  intros He. revert k s. induction fuel as [|fuel IH]; intros k s Hk Hfuel; [lia|].
  simpl. destruct (getitem (Z.of_nat k)) as [a|e'] eqn:Ek.
  - destruct (decide (k = n)) as [->|]; [congruence|]. apply IH; lia.
  - by destruct (ends_loop e').
Qed.

Lemma rmapM_first_raise {A B} (f : A → result B) pre a post vs e :
  Forall2 (λ a b, f a = Ok b) pre vs → f a = Raise e →
  rmapM f (pre ++ a :: post) = Raise e.
Proof.
  induction 1 as [|a' b pre vs Hb _ IH]; intros Ha; simpl.
  - by rewrite Ha.
  - rewrite Hb. simpl. by rewrite IH.
Qed.

Lemma append_nil_r (s1 s2 : string) : (s1 +:+ s2)%string = ""%string → s2 = ""%string.
Proof. by destruct s1. Qed.

Lemma append_inv_head (s s1 s2 : string) : (s +:+ s1 = s +:+ s2)%string → s1 = s2.
Proof. induction s as [|a s IH]; simpl; [done|]. intros [= H]. by apply IH. Qed.

Lemma append_inv_tail (s s1 s2 : string) : (s1 +:+ s = s2 +:+ s)%string → s1 = s2.
Proof.
  intros H. apply string_list_inj.
  apply (f_equal String.list_ascii_of_string) in H.
  rewrite !list_ascii_of_string_app in H. by apply app_inv_tail in H.
Qed.

Lemma string_app_assoc (s1 s2 s3 : string) :
  (s1 +:+ s2 +:+ s3)%string = ((s1 +:+ s2) +:+ s3)%string.
Proof.
  apply string_list_inj. rewrite !list_ascii_of_string_app. by rewrite (assoc_L (++)).
Qed.

Lemma path_join_relative (a b : string) :
  startswith_sep b = false → ∃ a', path_join a b = (a' +:+ b)%string ∧
                                   ∀ b', startswith_sep b' = false →
                                         path_join a b' = (a' +:+ b')%string.
Proof.
  intros Hb. unfold path_join. rewrite Hb.
  destruct (bool_decide (a = ""%string) || endswith_sep a) eqn:E.
  - exists a. split; [done|]. intros b' ->. done.
  - exists (a +:+ "/")%string. split.
    + apply string_app_assoc.
    + intros b' ->. apply string_app_assoc.
Qed.

Section BranchData.

Variable ls : string → dirtree.
Variable Tree_from_swc : string → result DictSWC.
Variable ToBranchTree : DictSWC → result BranchTree.
Variable Tree_get_branches : DictSWC → list Branch.
Context {T : Type}.

Abbreviation bd_get_branches :=
  (BranchDataset.get_branches ls Tree_from_swc ToBranchTree Tree_get_branches).
Abbreviation bd_init :=
  (BranchDataset.init ls Tree_from_swc ToBranchTree Tree_get_branches).
Abbreviation bd_collect := (BranchDataset.collect Tree_get_branches).
Abbreviation kept := (BranchDataset.kept Tree_get_branches).
Abbreviation skipped := (BranchDataset.skipped Tree_get_branches).

Lemma collect_fold (transform : option (Transform T)) (trees : list BranchTree)
    (branches : list (sample Branch T)) warned :
  foldl (λ s x, bd_collect transform (x, 0) s) (branches, warned) (map Mapped trees)
  = (branches ++ concat (map (kept transform) trees),
     warned ++ omap (skipped transform) trees).
Proof.
  revert branches warned. induction trees as [|bt trees IH]; intros branches warned.
  - simpl. by rewrite !app_nil_r.
  - simpl. unfold BranchDataset.kept, BranchDataset.skipped.
    destruct (BranchDataset.attempt Tree_get_branches transform (Mapped bt)) as [l|ex];
      rewrite IH.
    + by rewrite <- (assoc_L (++)).
    + by rewrite <- (assoc_L (++)).
Qed.

Lemma get_branches_run (swc_dir : string) (transform : option (Transform T))
    (w : BranchDataset.world T) (trees : list BranchTree) (e : exn) :
  Forall2 (λ path bt, ∃ tree, Tree_from_swc path = Ok tree ∧ ToBranchTree tree = Ok bt)
          (take (length trees) (TreeFolderDataset.find_swcs ls swc_dir)) trees →
  TreeFolderDataset.getitem Tree_from_swc
    (TreeFolderDataset.init ls swc_dir (Some ToBranchTree))
    (Z.of_nat (length trees)) = Raise e →
  bd_get_branches swc_dir transform w
  = if ends_loop e
    then Some (Ok (concat (map (kept transform) trees)),
               BranchDataset.mk_world (BranchDataset.saved w) (BranchDataset.np_err w)
                 (BranchDataset.warned w ++ omap (skipped transform) trees))
    else Some (Raise e,
               BranchDataset.mk_world (BranchDataset.saved w) (seterr_all em_raise)
                 (BranchDataset.warned w ++ omap (skipped transform) trees)).
Proof.
  intros Hall He. unfold BranchDataset.get_branches.
  assert (length trees ≤ length (TreeFolderDataset.find_swcs ls swc_dir))%nat as Hle.
  { apply Forall2_length in Hall. rewrite length_take in Hall. lia. }
  rewrite (TreeFolderDataset_run Tree_from_swc _ _ _ (map Mapped trees) e).
  - rewrite collect_fold. simpl. by destruct (ends_loop e).
  - rewrite length_map. simpl. apply Forall2_fmap_r.
    eapply Forall2_impl; [exact Hall|]. intros path bt (tree & Ht & Hbt).
    exists tree. split; [done|]. simpl. unfold mbind, result_MBind. by rewrite Hbt.
  - by rewrite length_map.
  - rewrite length_map. unfold TreeFolderDataset.len. simpl. lia.
Qed.

Lemma get_branches_total (swc_dir : string) (transform : option (Transform T))
    (w : BranchDataset.world T) :
  ∃ r w', bd_get_branches swc_dir transform w = Some (r, w') ∧
          BranchDataset.saved w' = BranchDataset.saved w ∧
          BranchDataset.np_err w'
          = (if r is Ok _ then BranchDataset.np_err w else seterr_all em_raise).
Proof.
  unfold BranchDataset.get_branches.
  set (ds := TreeFolderDataset.init ls swc_dir (Some ToBranchTree)).
  pose proof (for_in_terminates (TreeFolderDataset.getitem Tree_from_swc ds)
                (bd_collect transform) (TreeFolderDataset.len ds) IndexError
                (S (TreeFolderDataset.len ds)) 0 ([], BranchDataset.warned w)) as Hterm.
  destruct (for_in _ _ _ _ _) as [[brs wn]|e [brs wn]|].
  - by eexists _, _.
  - by eexists _, _.
  - destruct Hterm; [|lia|lia|done].
    rewrite TreeFolderDataset_getitem_nat. unfold TreeFolderDataset.len.
    by rewrite lookup_ge_None_2.
Qed.

(** X14: in the loop of [get_branches] under a transform that is true in a
    condition, a tree adds the images of all its branches, in order, when
    the transform succeeds on every one of them; when it raises on one, the
    tree adds no branch at all, also not those before the failing one, and
    one warning with the exception is issued.  Under a transform that is
    false in a condition the tree adds its branches as they are, and the
    transform is not called. *)
Theorem collect_all_or_nothing (tr : Transform T) (bt : BranchTree) (y : Z)
    (branches : list (sample Branch T)) warned :
  (truthy tr = true →
   (∀ vs, Forall2 (λ br v, call tr br = Ok v) (get_branches bt) vs →
          bd_collect (Some tr) (Mapped bt, y) (branches, warned)
          = (branches ++ map Mapped vs, warned)) ∧
   (∀ pre br post vs ex,
      get_branches bt = pre ++ br :: post →
      Forall2 (λ b v, call tr b = Ok v) pre vs →
      call tr br = Raise ex →
      bd_collect (Some tr) (Mapped bt, y) (branches, warned)
      = (branches, warned ++ [(Mapped bt, ex)]))) ∧
  (truthy tr = false →
   bd_collect (Some tr) (Mapped bt, y) (branches, warned)
   = (branches ++ map Raw (get_branches bt), warned)).
Proof.
  split; [intros Htrue|intros Hfalse];
    [|by unfold BranchDataset.collect, BranchDataset.attempt; rewrite Hfalse].
  split.
  - intros vs Hvs. unfold BranchDataset.collect, BranchDataset.attempt. rewrite Htrue.
    assert (rmapM (λ br, v ← call tr br; Ok (Mapped v)) (get_branches bt)
            = Ok (map (@Mapped Branch T) vs)) as ->; [|done].
    apply rmapM_Forall2, Forall2_fmap_r.
    eapply Forall2_impl; [exact Hvs|]. intros br v Hv. simpl.
    unfold mbind, result_MBind. by rewrite Hv.
  - intros pre br post vs ex Hbrs Hpre Hbr.
    unfold BranchDataset.collect, BranchDataset.attempt. rewrite Htrue, Hbrs.
    rewrite (rmapM_first_raise _ pre br post (map (@Mapped Branch T) vs) ex); [done| |].
    + apply Forall2_fmap_r. eapply Forall2_impl; [exact Hpre|]. intros b v Hv.
      simpl. unfold mbind, result_MBind. by rewrite Hv.
    + unfold mbind, result_MBind. by rewrite Hbr.
Qed.

(** X15: when every file found under [swc_dir] loads and reduces to a branch
    tree, [get_branches] returns, tree by tree in the order of the files,
    the branches of the trees that went through the transform, with one
    warning for each tree that did not; numpy's error settings are the
    caller's again and no saved file is touched. *)
Theorem get_branches_collects (swc_dir : string) (transform : option (Transform T))
    (w : BranchDataset.world T) (trees : list BranchTree) :
  Forall2 (λ path bt, ∃ tree, Tree_from_swc path = Ok tree ∧ ToBranchTree tree = Ok bt)
          (TreeFolderDataset.find_swcs ls swc_dir) trees →
  bd_get_branches swc_dir transform w
  = Some (Ok (concat (map (kept transform) trees)),
          BranchDataset.mk_world (BranchDataset.saved w) (BranchDataset.np_err w)
            (BranchDataset.warned w ++ omap (skipped transform) trees)).
Proof.
  intros Hall. pose proof (Forall2_length _ _ _ Hall) as Hlen.
  rewrite (get_branches_run swc_dir transform w trees IndexError); [done| |].
  - by rewrite <- Hlen, firstn_all.
  - rewrite TreeFolderDataset_getitem_nat. simpl. by rewrite <- Hlen, lookup_ge_None_2.
Qed.

(** X16: when a file fails to load or to reduce to a branch tree, after files
    that did, [get_branches] stops there.  On an [IndexError] or a
    [StopIteration] it returns, without an error, the branches of the files
    before it only, and numpy's error settings are the caller's again; on
    any other exception it raises it and leaves numpy's error settings at
    [raise] for every kind of error, not the caller's. *)
Theorem get_branches_stops (swc_dir : string) (transform : option (Transform T))
    (w : BranchDataset.world T) (trees : list BranchTree) (path : string) (e : exn) :
  Forall2 (λ path bt, ∃ tree, Tree_from_swc path = Ok tree ∧ ToBranchTree tree = Ok bt)
          (take (length trees) (TreeFolderDataset.find_swcs ls swc_dir)) trees →
  TreeFolderDataset.find_swcs ls swc_dir !! length trees = Some path →
  (tree ← Tree_from_swc path; ToBranchTree tree) = Raise e →
  bd_get_branches swc_dir transform w
  = if ends_loop e
    then Some (Ok (concat (map (kept transform) trees)),
               BranchDataset.mk_world (BranchDataset.saved w) (BranchDataset.np_err w)
                 (BranchDataset.warned w ++ omap (skipped transform) trees))
    else Some (Raise e,
               BranchDataset.mk_world (BranchDataset.saved w) (seterr_all em_raise)
                 (BranchDataset.warned w ++ omap (skipped transform) trees)).
Proof.
  intros Hall Hpath He. apply get_branches_run; [done|].
  rewrite TreeFolderDataset_getitem_nat. simpl. rewrite Hpath. simpl.
  unfold mbind, result_MBind in *.
  destruct (Tree_from_swc path) as [tree|e']; simpl in *; [|congruence].
  destruct (ToBranchTree tree) as [bt|e']; simpl in *; congruence.
Qed.

(** X17: [get_branches] always ends, within one call of [__getitem__] per
    file and one more; it never changes a saved file; numpy's error settings
    are the caller's when it returns and [raise] for every kind of error
    when it raises. *)
Theorem get_branches_ends (swc_dir : string) (transform : option (Transform T))
    (w : BranchDataset.world T) :
  ∃ r w', bd_get_branches swc_dir transform w = Some (r, w') ∧
          BranchDataset.saved w' = BranchDataset.saved w ∧
          BranchDataset.np_err w'
          = (if r is Ok _ then BranchDataset.np_err w else seterr_all em_raise).
Proof. apply get_branches_total. Qed.

Lemma get_filename_relative (transform : option (Transform T)) :
  startswith_sep (BranchDataset.get_filename transform) = false ∧
  BranchDataset.get_filename transform ≠ ""%string.
Proof. by destruct transform as [[[] ? ?]|]. Qed.

Lemma default_path_nonempty (swc_dir : string) (transform : option (Transform T)) :
  path_join swc_dir (BranchDataset.get_filename transform) ≠ ""%string.
Proof.
  destruct (get_filename_relative transform) as [Hrel Hne].
  destruct (path_join_relative swc_dir _ Hrel) as (a' & -> & _).
  by intros ?%append_nil_r.
Qed.

Lemma get_filename_inj (tr1 tr2 : option (Transform T)) :
  BranchDataset.get_filename tr1 = BranchDataset.get_filename tr2 →
  (is_true tr1 = false ∧ is_true tr2 = false) ∨
  (is_true tr1 = true ∧ is_true tr2 = true ∧ repr <$> tr1 = repr <$> tr2).
Proof.
  unfold BranchDataset.get_filename. intros H%append_inv_head.
  assert (∀ s : string, ("_" +:+ s +:+ ".pt")%string ≠ ".pt"%string) as Hne.
  { intros s Hs. apply (f_equal String.list_ascii_of_string) in Hs.
    rewrite !list_ascii_of_string_app in Hs. simpl in Hs. by injection Hs. }
  destruct tr1 as [[b1 r1 c1]|], tr2 as [[b2 r2 c2]|]; simpl in *;
    try destruct b1; try destruct b2; simpl in *;
    try (by left); try (by destruct (Hne _ H)); try (by destruct (Hne _ (eq_sym H))).
  right. split_and!; [done..|].
  apply append_inv_tail in H. apply (append_inv_head "_") in H. by rewrite H.
Qed.

Lemma get_filename_ext (tr1 tr2 : option (Transform T)) :
  (is_true tr1 = false ∧ is_true tr2 = false) ∨
  (is_true tr1 = true ∧ is_true tr2 = true ∧ repr <$> tr1 = repr <$> tr2) →
  BranchDataset.get_filename tr1 = BranchDataset.get_filename tr2.
Proof.
  unfold BranchDataset.get_filename.
  destruct tr1 as [[b1 r1 c1]|], tr2 as [[b2 r2 c2]|]; simpl;
    intros [[H1 H2]|(H1 & H2 & Hr)]; simplify_eq; done.
Qed.

Lemma init_loads (swc_dir s : string) (transform : option (Transform T))
    (w : BranchDataset.world T) brs :
  s ≠ ""%string → BranchDataset.saved w !! s = Some brs →
  bd_init swc_dir (Some (BranchDataset.SaveStr s)) transform w
  = Some (Ok (BranchDataset.mk swc_dir (Some s) transform brs), w).
Proof.
  intros Hs Hbrs. unfold BranchDataset.init. simpl.
  rewrite decide_False by done. simpl. by rewrite Hbrs.
Qed.

Lemma init_loads_default (swc_dir : string) (sv : option BranchDataset.save_arg)
    (transform : option (Transform T)) (w : BranchDataset.world T) brs :
  default (BranchDataset.SaveBool true) sv = BranchDataset.SaveBool true →
  BranchDataset.saved w !! path_join swc_dir (BranchDataset.get_filename transform)
    = Some brs →
  bd_init swc_dir sv transform w
  = Some (Ok (BranchDataset.mk swc_dir
                (Some (path_join swc_dir (BranchDataset.get_filename transform)))
                transform brs), w).
Proof.
  intros Hsv Hbrs. unfold BranchDataset.init. rewrite Hsv.
  rewrite decide_False by apply default_path_nonempty. simpl. by rewrite Hbrs.
Qed.

Lemma init_saved (swc_dir : string) (sv : option BranchDataset.save_arg)
    (transform : option (Transform T)) (w w' : BranchDataset.world T)
    (ds : BranchDataset.t T) (s : string) :
  bd_init swc_dir sv transform w = Some (Ok ds, w') →
  BranchDataset.save ds = Some s → s ≠ ""%string →
  BranchDataset.saved w' !! s = Some (BranchDataset.branches ds).
Proof.
  unfold BranchDataset.init.
  set (self_save := match default (BranchDataset.SaveBool true) sv with
                    | BranchDataset.SaveStr s => Some s
                    | BranchDataset.SaveBool true =>
                        Some (path_join swc_dir (BranchDataset.get_filename transform))
                    | BranchDataset.SaveBool false => None
                    end).
  intros Hinit Hsave Hs.
  destruct self_save as [s0|] eqn:Ess; simpl in Hinit.
  - destruct (decide (s0 = ""%string)) as [->|Hs0]; simpl in Hinit.
    + destruct (bd_get_branches swc_dir transform w) as [[[brs|e] w1]|];
        simplify_eq; simpl in *; congruence.
    + destruct (BranchDataset.saved w !! s0) as [brs|] eqn:Eload.
      * simplify_eq. simpl in *. congruence.
      * destruct (bd_get_branches swc_dir transform w) as [[[brs|e] w1]|];
          simplify_eq; simpl in *. simplify_eq. by rewrite lookup_insert_eq.
  - destruct (bd_get_branches swc_dir transform w) as [[[brs|e] w1]|];
      simplify_eq; simpl in *; congruence.
Qed.

(** X18: after [BranchDataset(swc_dir, save, transform)] returned a dataset
    with a save path, the file at that path holds the branches of the
    dataset, and a later [BranchDataset(_, save=path, _)] returns these
    branches whatever its directory and its transform are, and leaves the
    saved files, numpy's error settings and the warnings as they were. *)
Theorem init_round_trip (swc_dir : string) (sv : option BranchDataset.save_arg)
    (transform : option (Transform T)) (w w' : BranchDataset.world T)
    (ds : BranchDataset.t T) (s : string) :
  bd_init swc_dir sv transform w = Some (Ok ds, w') →
  BranchDataset.save ds = Some s → s ≠ ""%string →
  BranchDataset.saved w' !! s = Some (BranchDataset.branches ds) ∧
  ∀ swc_dir2 (transform2 : option (Transform T)),
    bd_init swc_dir2 (Some (BranchDataset.SaveStr s)) transform2 w'
    = Some (Ok (BranchDataset.mk swc_dir2 (Some s) transform2 (BranchDataset.branches ds)),
            w').
Proof.
  intros Hinit Hsave Hs.
  pose proof (init_saved _ _ _ _ _ _ _ Hinit Hsave Hs) as Hfile.
  split; [done|]. intros swc_dir2 transform2. by apply init_loads.
Qed.

(** X19: with [save=False], and with [save=""], the dataset is computed by
    [get_branches] every time, whatever files were saved before, and nothing
    is saved; [self.save] is [None], or the empty string. *)
Theorem init_no_save (swc_dir : string) (sv : BranchDataset.save_arg)
    (transform : option (Transform T)) (w : BranchDataset.world T) :
  sv = BranchDataset.SaveBool false ∨ sv = BranchDataset.SaveStr "" →
  ∃ r w', bd_init swc_dir (Some sv) transform w = Some (r, w') ∧
          BranchDataset.saved w' = BranchDataset.saved w ∧
          ∀ ds, r = Ok ds →
                bd_get_branches swc_dir transform w
                  = Some (Ok (BranchDataset.branches ds), w') ∧
                BranchDataset.save ds
                  = (if sv is BranchDataset.SaveStr _ then Some ""%string else None).
Proof.
  intros Hsv.
  destruct (get_branches_total swc_dir transform w) as (r & w' & Hget & Hsaved & _).
  destruct r as [brs|e].
  - destruct Hsv as [-> | ->]; eexists (Ok _), w'; unfold BranchDataset.init; simpl;
      rewrite Hget; (split; [reflexivity|]); (split; [done|]); by intros ds [= <-].
  - exists (Raise e), w'. unfold BranchDataset.init.
    destruct Hsv as [-> | ->]; simpl; rewrite Hget; by split_and!.
Qed.

(** X20: the default save path depends on the transform only through
    whether it is true in a condition and, when it is, its [__repr__].
    After a dataset was built with the default [save], building one for the
    same directory with a transform that [get_filename] names alike (both
    false in a condition or [None], or both true with one label) returns
    the branches of the first, not those of its own transform. *)
Theorem init_cache_shared_by_label (swc_dir : string)
    (sv : option BranchDataset.save_arg) (tr1 tr2 : option (Transform T))
    (w w' : BranchDataset.world T) (ds : BranchDataset.t T) :
  default (BranchDataset.SaveBool true) sv = BranchDataset.SaveBool true →
  (is_true tr1 = false ∧ is_true tr2 = false) ∨
  (is_true tr1 = true ∧ is_true tr2 = true ∧ repr <$> tr1 = repr <$> tr2) →
  bd_init swc_dir sv tr1 w = Some (Ok ds, w') →
  bd_init swc_dir sv tr2 w'
  = Some (Ok (BranchDataset.mk swc_dir (BranchDataset.save ds) tr2
                (BranchDataset.branches ds)), w').
Proof.
  intros Hsv Hlabel Hinit.
  pose proof (get_filename_ext tr1 tr2 Hlabel) as Hname.
  assert (BranchDataset.save ds
          = Some (path_join swc_dir (BranchDataset.get_filename tr1))) as Hsave.
  { revert Hinit. unfold BranchDataset.init. rewrite Hsv.
    rewrite decide_False by apply default_path_nonempty. simpl.
    destruct (BranchDataset.saved w !! _) as [brs|].
    - by intros [= <- <-].
    - destruct (bd_get_branches swc_dir tr1 w) as [[[brs|e] w1]|]; [|done..].
      by intros [= <- <-]. }
  pose proof (init_saved _ _ _ _ _ _ _ Hinit Hsave (default_path_nonempty _ _)) as Hfile.
  rewrite Hsave, Hname. apply init_loads_default; [done|]. by rewrite <- Hname.
Qed.

(** X21: for one directory, the default save paths for two values of
    [transform] are equal exactly when both are false in a condition ([None]
    or, say, an empty pipeline), or both are true and have the same label. *)
Theorem default_save_path_by_label (swc_dir : string) (tr1 tr2 : option (Transform T)) :
  path_join swc_dir (BranchDataset.get_filename tr1)
  = path_join swc_dir (BranchDataset.get_filename tr2)
  ↔ (is_true tr1 = false ∧ is_true tr2 = false) ∨
    (is_true tr1 = true ∧ is_true tr2 = true ∧ repr <$> tr1 = repr <$> tr2).
Proof.
  split.
  - destruct (get_filename_relative tr1) as [Hrel1 _].
    destruct (get_filename_relative tr2) as [Hrel2 _].
    destruct (path_join_relative swc_dir _ Hrel1) as (a' & -> & Hall).
    rewrite (Hall _ Hrel2). intros H%append_inv_head. by apply get_filename_inj.
  - intros Hlabel. f_equal. by apply get_filename_ext.
Qed.

(** X22: a [for] loop over a [BranchDataset] ends after [len + 1] calls of
    [__getitem__] and yields every branch of the dataset once, in order,
    with the label 0. *)
Theorem BranchDataset_iterates_all (self : BranchDataset.t T) (fuel : nat) :
  (BranchDataset.len self < fuel)%nat →
  BranchDataset.items fuel self
  = Finished (map (λ b, (b, 0)) (BranchDataset.branches self)).
Proof.
  intros Hfuel. unfold BranchDataset.items, BranchDataset.len in *.
  rewrite (for_in_run _ _ (map (λ b, (b, 0)) (BranchDataset.branches self))
             0 [] fuel IndexError).
  - by rewrite foldl_snoc.
  - intros j xy Hj. apply lookup_map_Some in Hj as (b & -> & Hj). simpl.
    unfold BranchDataset.getitem. by rewrite py_index_nat, Hj.
  - simpl. rewrite length_map. unfold BranchDataset.getitem.
    by rewrite py_index_nat, lookup_ge_None_2.
  - by rewrite length_map.
Qed.

End BranchData.

Lemma collect_all_or_nothing_witness :
  BranchDataset.collect extract_branches (Some long_only)
    (Mapped two_branches, 0) ([], [])
  = ([], [(Mapped two_branches, ValueError)]).
Proof.
  apply (proj2 (proj1 (collect_all_or_nothing extract_branches long_only two_branches
                         0 [] []) eq_refl)
           [mkBranch None [Node.mk 0 1 (Fz 0) (Fz 0) (Fz 0) (Fz 1) (-1);
                           Node.mk 1 3 (Fz 1) (Fz 0) (Fz 0) (Fz 1) 0;
                           Node.mk 2 3 (Fz 2) (Fz 0) (Fz 0) (Fz 1) 1]]
           (mkBranch None [Node.mk 2 3 (Fz 2) (Fz 0) (Fz 0) (Fz 1) 1;
                           Node.mk 3 3 (Fz 3) (Fz 1) (Fz 0) (Fz 1) 2])
           [] [3] ValueError).
  - reflexivity.
  - repeat constructor.
  - reflexivity.
Defined.

Lemma get_branches_collects_witness :
  ∃ brs,
    BranchDataset.get_branches two_files read_fork5 (from_tree extract_branches)
      extract_branches "d" (Some count_nodes) world0
    = Some (Ok brs, world0) ∧
    brs = [Mapped 3; Mapped 2; Mapped 2; Mapped 3; Mapped 2; Mapped 2].
Proof.
  pose (r := from_tree extract_branches fork5).
  assert (∃ bt, r = Ok bt) as [bt Hbt] by (vm_compute; by eexists).
  rewrite (get_branches_collects two_files read_fork5 (from_tree extract_branches)
             extract_branches "d" (Some count_nodes) world0 [bt; bt]).
  - unfold r in Hbt. vm_compute in Hbt. injection Hbt as <-.
    eexists. split; [|reflexivity]. vm_compute. reflexivity.
  - repeat (constructor; [by exists fork5|]). constructor.
Defined.

Lemma get_branches_stops_witness :
  BranchDataset.get_branches two_files read_first_only (from_tree extract_branches)
    extract_branches "d" (Some count_nodes) world0
  = Some (Raise ValueError,
          BranchDataset.mk_world ∅ (seterr_all em_raise) []).
Proof.
  pose (r := from_tree extract_branches fork5).
  assert (∃ bt, r = Ok bt) as [bt Hbt] by (vm_compute; by eexists).
  rewrite (get_branches_stops two_files read_first_only (from_tree extract_branches)
             extract_branches "d" (Some count_nodes) world0 [bt] "d/b.swc" ValueError).
  - unfold r in Hbt. vm_compute in Hbt. injection Hbt as <-.
    vm_compute. reflexivity.
  - repeat (constructor; [by exists fork5|]). constructor.
  - reflexivity.
  - reflexivity.
Defined.

Lemma init_round_trip_witness :
  ∃ ds w',
    BranchDataset.init two_files read_fork5 (from_tree extract_branches)
      extract_branches "d" None (Some count_nodes) world0 = Some (Ok ds, w') ∧
    BranchDataset.saved w' !! "d/BranchDataset_count.pt"%string
      = Some (BranchDataset.branches ds) ∧
    BranchDataset.init two_files read_fork5 (from_tree extract_branches)
      extract_branches "elsewhere" (Some (BranchDataset.SaveStr "d/BranchDataset_count.pt"))
      (Some long_only) w'
    = Some (Ok (BranchDataset.mk "elsewhere" (Some "d/BranchDataset_count.pt"%string)
                  (Some long_only) (BranchDataset.branches ds)), w').
Proof.
  pose (r := BranchDataset.init two_files read_fork5 (from_tree extract_branches)
               extract_branches "d" None (Some count_nodes) world0).
  assert (∃ ds w', r = Some (Ok ds, w') ∧
                   BranchDataset.save ds = Some "d/BranchDataset_count.pt"%string)
    as (ds & w' & Hinit & Hsave) by (vm_compute; by eexists _, _).
  destruct (init_round_trip two_files read_fork5 (from_tree extract_branches)
              extract_branches "d" None (Some count_nodes) world0 w' ds
              "d/BranchDataset_count.pt" Hinit Hsave) as [Hfile Hload]; [done|].
  exists ds, w'. split_and!; [exact Hinit|exact Hfile|apply Hload].
Defined.

Lemma init_no_save_witness :
  ∃ r w',
    BranchDataset.init two_files read_fork5 (from_tree extract_branches)
      extract_branches "d" (Some (BranchDataset.SaveBool false)) (Some count_nodes) world0
    = Some (r, w') ∧
    BranchDataset.saved w' = ∅.
Proof.
  destruct (init_no_save two_files read_fork5 (from_tree extract_branches)
              extract_branches "d" (BranchDataset.SaveBool false) (Some count_nodes) world0)
    as (r & w' & Hinit & Hsaved & _); [by left|].
  by exists r, w'.
Defined.

Lemma init_cache_shared_by_label_witness :
  ∃ ds w',
    BranchDataset.init two_files read_fork5 (from_tree extract_branches)
      extract_branches "d" None (Some count_nodes) world0 = Some (Ok ds, w') ∧
    BranchDataset.init two_files read_fork5 (from_tree extract_branches)
      extract_branches "d" None (Some count_edges) w'
    = Some (Ok (BranchDataset.mk "d" (BranchDataset.save ds) (Some count_edges)
                  (BranchDataset.branches ds)), w').
Proof.
  pose (r := BranchDataset.init two_files read_fork5 (from_tree extract_branches)
               extract_branches "d" None (Some count_nodes) world0).
  assert (∃ ds w', r = Some (Ok ds, w')) as (ds & w' & Hinit)
    by (vm_compute; by eexists _, _).
  exists ds, w'. split; [exact Hinit|].
  apply (init_cache_shared_by_label two_files read_fork5 (from_tree extract_branches)
           extract_branches "d" None (Some count_nodes) (Some count_edges) world0 w' ds);
    [reflexivity|by right|exact Hinit].
Defined.

Lemma BranchDataset_iterates_all_witness :
  BranchDataset.items 3
    (BranchDataset.mk "d" None None [@Raw Branch Z (mkBranch None []); Raw (mkBranch None [])])
  = Finished [(Raw (mkBranch None []), 0); (Raw (mkBranch None []), 0)].
Proof.
  apply (BranchDataset_iterates_all
           (BranchDataset.mk "d" None None
              [@Raw Branch Z (mkBranch None []); Raw (mkBranch None [])]) 3).
  unfold BranchDataset.len. simpl. lia.
Defined.

